(** * Zero-knowledge vault core: a shallow embedding of [src/lib/crypto.ts],
    the [AuthProvider] of [contexts/AuthContext] and the record loader of
    [pages/Passwords].

    JavaScript strings are sequences of 16-bit code units ([list Z]),
    [Uint8Array]/[ArrayBuffer] contents are [list byte], thrown exceptions and
    rejected promises are the [Throw] case of [completion].  The browser
    primitives the code calls ([TextEncoder], [TextDecoder], [btoa], [atob])
    are written out after the WHATWG Encoding and HTML standards; the Web
    Crypto primitives (PBKDF2, AES-GCM) are an interface, [WebCrypto]. *)

From Stdlib Require Import ZArith Zbitwise Lia List Bool.
From Stdlib.Strings Require Import Ascii String Byte.
From stdpp Require Import base option list gmap.
Import ListNotations.

Set Warnings "-register-all".
#[local] Open Scope Z_scope.

(** ** Completions: the result of running (and awaiting) JavaScript code *)

Inductive exn : Type :=
  | InvalidCharacterError   (* btoa / atob on a bad string *)
  | OperationError          (* crypto.subtle failure, e.g. a GCM tag mismatch *)
  | TypeError               (* property access on undefined / null *)
  | RangeError              (* typed array of invalid length *)
  | QuotaExceededError      (* getRandomValues on more than 65536 bytes *)
  | SyntaxError             (* JSON.parse *)
  | FirebaseError           (* the remote store or identity service failed *)
  | NotAllowedError.        (* navigator.clipboard refused a read or a write *)

Inductive completion (A : Type) : Type :=
  | Normal (a : A)
  | Throw (e : exn).
Arguments Normal {A} a.
Arguments Throw {A} e.

Definition cbind {A B} (m : completion A) (k : A -> completion B) : completion B :=
  match m with
  | Normal a => k a
  | Throw e => Throw e
  end.

(** [try { body } catch { handler }] *)
Definition try_catch {A} (body : completion A) (handler : exn -> completion A)
  : completion A :=
  match body with
  | Normal a => Normal a
  | Throw e => handler e
  end.

(** [completion] is a monad; stdpp's [x ← m; k] sequences awaited calls. *)
#[global] Instance completion_ret : MRet completion := @Normal.
#[global] Instance completion_bind : MBind completion :=
  fun A B k m => cbind m k.

(** ** Bytes and code units *)

Abbreviation jsstring := (list Z).
Abbreviation bytes := (list byte).

Definition Z_of_byte (b : byte) : Z := Z.of_N (Byte.to_N b).

(** Storing a number into a [Uint8Array] slot wraps it modulo 256. *)
Definition byte_of_Z (z : Z) : byte :=
  match Byte.of_N (Z.to_N (z mod 256)) with
  | Some b => b
  | None => x00
  end.

(** An ASCII literal of the source as a JavaScript string. *)
Definition js (s : string) : jsstring :=
  List.map (fun a => Z.of_N (N_of_ascii a)) (list_ascii_of_string s).

Definition is_code_unit (u : Z) : bool := (0 <=? u) && (u <? 65536).

(** [a === b] on strings: the same code units. *)
Fixpoint str_eqb (a b : jsstring) : bool :=
  match a, b with
  | [], [] => true
  | x :: a', y :: b' => (x =? y) && str_eqb a' b'
  | _, _ => false
  end.

(** ** UTF-16 <-> scalar values (ECMAScript / WebIDL USVString) *)

Definition is_lead (u : Z) : bool := (0xD800 <=? u) && (u <=? 0xDBFF).
Definition is_trail (u : Z) : bool := (0xDC00 <=? u) && (u <=? 0xDFFF).

(** Conversion of a DOMString to a sequence of scalar values: a surrogate
    pair is one scalar value, an unpaired surrogate becomes U+FFFD. *)
Fixpoint to_scalars (s : jsstring) : list Z :=
  match s with
  | [] => []
  | c :: rest =>
      if is_lead c then
        match rest with
        | d :: rest' =>
            if is_trail d
            then (0x10000 + (c - 0xD800) * 0x400 + (d - 0xDC00)) :: to_scalars rest'
            else 0xFFFD :: to_scalars rest
        | [] => [0xFFFD]
        end
      else if is_trail c then 0xFFFD :: to_scalars rest
      else c :: to_scalars rest
  end.

(** A scalar value as one or two code units. *)
Definition code_units_of (cp : Z) : jsstring :=
  if cp <? 0x10000 then [cp]
  else [0xD800 + Z.shiftr (cp - 0x10000) 10; 0xDC00 + Z.land (cp - 0x10000) 0x3FF].

Definition of_scalars (l : list Z) : jsstring := List.concat (List.map code_units_of l).

(** [String.prototype.isWellFormed]: every code unit is 16-bit and no
    surrogate is unpaired. *)
Fixpoint isWellFormed (s : jsstring) : bool :=
  match s with
  | [] => true
  | c :: rest =>
      is_code_unit c &&
      (if is_lead c then
         match rest with
         | d :: rest' => is_trail d && isWellFormed rest'
         | [] => false
         end
       else negb (is_trail c) && isWellFormed rest)
  end.

(** ** UTF-8 encoder (WHATWG Encoding, 9.1.2) *)

Definition utf8_encode_scalar (cp : Z) : list Z :=
  if cp <=? 0x7F then [cp]
  else if cp <=? 0x7FF then
    [Z.shiftr cp 6 + 0xC0; Z.lor 0x80 (Z.land cp 0x3F)]
  else if cp <=? 0xFFFF then
    [Z.shiftr cp 12 + 0xE0;
     Z.lor 0x80 (Z.land (Z.shiftr cp 6) 0x3F);
     Z.lor 0x80 (Z.land cp 0x3F)]
  else
    [Z.shiftr cp 18 + 0xF0;
     Z.lor 0x80 (Z.land (Z.shiftr cp 12) 0x3F);
     Z.lor 0x80 (Z.land (Z.shiftr cp 6) 0x3F);
     Z.lor 0x80 (Z.land cp 0x3F)].

Definition utf8_encode (l : list Z) : list Z :=
  List.concat (List.map utf8_encode_scalar l).

(** [new TextEncoder().encode(s)] *)
Definition TextEncoder_encode (s : jsstring) : bytes :=
  List.map byte_of_Z (utf8_encode (to_scalars s)).

(** ** UTF-8 decoder (WHATWG Encoding, 9.1.1), error mode "replacement" *)

Record utf8_state : Type := mk_utf8_state {
  code_point : Z;
  bytes_seen : Z;
  bytes_needed : Z;
  lower_boundary : Z;
  upper_boundary : Z
}.

Definition utf8_init : utf8_state := mk_utf8_state 0 0 0 0x80 0xBF.

Definition in_range (lo hi b : Z) : bool := (lo <=? b) && (b <=? hi).

(** The handler when no continuation byte is pending. *)
Definition utf8_lead (b : Z) : list Z * utf8_state :=
  if in_range 0x00 0x7F b then ([b], utf8_init)
  else if in_range 0xC2 0xDF b then
    ([], mk_utf8_state (Z.land b 0x1F) 0 1 0x80 0xBF)
  else if in_range 0xE0 0xEF b then
    ([], mk_utf8_state (Z.land b 0xF) 0 2
           (if b =? 0xE0 then 0xA0 else 0x80)
           (if b =? 0xED then 0x9F else 0xBF))
  else if in_range 0xF0 0xF4 b then
    ([], mk_utf8_state (Z.land b 0x7) 0 3
           (if b =? 0xF0 then 0x90 else 0x80)
           (if b =? 0xF4 then 0x8F else 0xBF))
  else ([0xFFFD], utf8_init).

(** One byte: the scalar values emitted and the next state.  A byte outside
    the expected continuation range emits U+FFFD and is then handled again
    from the initial state. *)
Definition utf8_step (st : utf8_state) (b : Z) : list Z * utf8_state :=
  if bytes_needed st =? 0 then utf8_lead b
  else if negb (in_range (lower_boundary st) (upper_boundary st) b) then
    let '(out, st') := utf8_lead b in (0xFFFD :: out, st')
  else
    let cp := Z.lor (Z.shiftl (code_point st) 6) (Z.land b 0x3F) in
    let seen := bytes_seen st + 1 in
    if seen =? bytes_needed st then ([cp], utf8_init)
    else ([], mk_utf8_state cp seen (bytes_needed st) 0x80 0xBF).

(** The whole queue; at end-of-queue a pending sequence emits U+FFFD. *)
Fixpoint utf8_run (st : utf8_state) (l : list Z) : list Z :=
  match l with
  | [] => if bytes_needed st =? 0 then [] else [0xFFFD]
  | b :: l' => let '(out, st') := utf8_step st b in out ++ utf8_run st' l'
  end.

Definition utf8_decode (l : list Z) : list Z := utf8_run utf8_init l.

(** A [TextDecoder] built with no options has [ignoreBOM = false]: a leading
    U+FEFF of the decoded stream is dropped. *)
Definition strip_bom (l : list Z) : list Z :=
  match l with
  | c :: rest => if c =? 0xFEFF then rest else l
  | [] => []
  end.

(** [new TextDecoder().decode(buffer)]; never throws ([fatal = false]). *)
Definition TextDecoder_decode (buffer : bytes) : jsstring :=
  of_scalars (strip_bom (utf8_decode (List.map Z_of_byte buffer))).

(** ** Base64: [btoa] and [atob] (HTML, forgiving-base64) *)

Definition b64_char (v : Z) : Z :=
  if v <? 26 then 65 + v
  else if v <? 52 then 97 + (v - 26)
  else if v <? 62 then 48 + (v - 52)
  else if v =? 62 then 43
  else 47.

Definition b64_value (c : Z) : option Z :=
  if in_range 65 90 c then Some (c - 65)
  else if in_range 97 122 c then Some (c - 97 + 26)
  else if in_range 48 57 c then Some (c - 48 + 52)
  else if c =? 43 then Some 62
  else if c =? 47 then Some 63
  else None.

Definition b64_pad : Z := 61.

(** The sextets of a byte sequence: three bytes give four, a tail of one or
    two bytes gives two or three (the spare low bits are zero). *)
Fixpoint b64_sextets (l : list Z) : list Z :=
  match l with
  | [] => []
  | [a] => [Z.shiftr a 2; Z.shiftl (Z.land a 3) 4]
  | [a; b] =>
      [Z.shiftr a 2;
       Z.lor (Z.shiftl (Z.land a 3) 4) (Z.shiftr b 4);
       Z.shiftl (Z.land b 15) 2]
  | a :: b :: c :: rest =>
      Z.shiftr a 2
      :: Z.lor (Z.shiftl (Z.land a 3) 4) (Z.shiftr b 4)
      :: Z.lor (Z.shiftl (Z.land b 15) 2) (Z.shiftr c 6)
      :: Z.land c 63
      :: b64_sextets rest
  end.

(** The [=] signs that complete the last group of four. *)
Fixpoint b64_padding (l : list Z) : jsstring :=
  match l with
  | [] => []
  | [_] => [b64_pad; b64_pad]
  | [_; _] => [b64_pad]
  | _ :: _ :: _ :: rest => b64_padding rest
  end.

Definition b64_encode (l : list Z) : jsstring :=
  List.map b64_char (b64_sextets l) ++ b64_padding l.

(** [btoa(s)]: throws when a code unit is above U+00FF. *)
Definition btoa (s : jsstring) : completion jsstring :=
  if forallb (in_range 0 255) s then Normal (b64_encode s)
  else Throw InvalidCharacterError.

Definition is_ascii_whitespace (c : Z) : bool :=
  (c =? 9) || (c =? 10) || (c =? 12) || (c =? 13) || (c =? 32).

(** Step 2 of forgiving-base64 decode: when the length is a multiple of
    four, one or two trailing [=] are removed. *)
Definition remove_trailing_pad (data : jsstring) : jsstring :=
  match List.rev data with
  | p :: q :: r => if p =? b64_pad then
                     if q =? b64_pad then List.rev r else List.rev (q :: r)
                   else data
  | [p] => if p =? b64_pad then [] else data
  | [] => data
  end.

Definition strip_padding (data : jsstring) : jsstring :=
  if Z.of_nat (List.length data) mod 4 =? 0 then remove_trailing_pad data else data.

Fixpoint b64_values (data : jsstring) : option (list Z) :=
  match data with
  | [] => Some []
  | c :: rest =>
      match b64_value c, b64_values rest with
      | Some v, Some vs => Some (v :: vs)
      | _, _ => None
      end
  end.

(** Groups of four sextets give three bytes; a tail of two or three sextets
    gives one or two bytes, the spare low bits being discarded. *)
Fixpoint b64_decode_values (vs : list Z) : list Z :=
  match vs with
  | a :: b :: c :: d :: rest =>
      Z.lor (Z.shiftl a 2) (Z.shiftr b 4)
      :: Z.lor (Z.shiftl (Z.land b 15) 4) (Z.shiftr c 2)
      :: Z.lor (Z.shiftl (Z.land c 3) 6) d
      :: b64_decode_values rest
  | [a; b; c] =>
      [Z.lor (Z.shiftl a 2) (Z.shiftr b 4);
       Z.lor (Z.shiftl (Z.land b 15) 4) (Z.shiftr c 2)]
  | [a; b] => [Z.lor (Z.shiftl a 2) (Z.shiftr b 4)]
  | _ => []
  end.

(** [atob(s)] *)
Definition atob (s : jsstring) : completion jsstring :=
  let data := strip_padding (List.filter (fun c => negb (is_ascii_whitespace c)) s) in
  if Z.of_nat (List.length data) mod 4 =? 1 then Throw InvalidCharacterError
  else
    match b64_values data with
    | Some vs => Normal (b64_decode_values vs)
    | None => Throw InvalidCharacterError
    end.

(** ** [crypto.ts]: constants and buffer <-> base64 helpers *)

Definition PBKDF2_ITERATIONS : Z := 200000.
Definition SALT_LENGTH : nat := 16.
Definition IV_LENGTH : nat := 12.
Definition KEY_LENGTH : Z := 256.

(** [String.fromCharCode(n)] for one argument. *)
Definition fromCharCode (n : Z) : Z := n mod 65536.

(** [arrayBufferToBase64]: the loop appends one code unit per byte. *)
Definition arrayBufferToBase64 (buffer : bytes) : completion jsstring :=
  let binary :=
    List.fold_left (fun binary b => binary ++ [fromCharCode (Z_of_byte b)]) buffer [] in
  btoa binary.

(** [base64ToArrayBuffer]: [bytes[i] = binary.charCodeAt(i)]. *)
Definition base64ToArrayBuffer (base64 : jsstring) : completion bytes :=
  binary ← atob base64;
  Normal (List.map byte_of_Z binary).

(** ** The Web Crypto interface used by [crypto.ts] *)

Inductive kdf_hash : Type := SHA_256.

(** [pbkdf2_deriveKey pw salt iterations hash length] stands for
    [importKey('raw', pw, 'PBKDF2', ...)] followed by
    [deriveKey({name:'PBKDF2', salt, iterations, hash}, _, {name:'AES-GCM', length}, ...)];
    [aes_gcm_encrypt key iv data] and [aes_gcm_decrypt key iv data] stand for
    [crypto.subtle.encrypt/decrypt({name:'AES-GCM', iv}, key, data)].
    The one law is AEAD correctness: opening what was sealed under the same
    key and nonce gives the plaintext back. *)
Class WebCrypto : Type := {
  CryptoKey : Type;
  pbkdf2_deriveKey : bytes -> bytes -> Z -> kdf_hash -> Z -> completion CryptoKey;
  aes_gcm_encrypt : CryptoKey -> bytes -> bytes -> completion bytes;
  aes_gcm_decrypt : CryptoKey -> bytes -> bytes -> completion bytes;
  aes_gcm_open_sealed : forall key iv data sealed,
    aes_gcm_encrypt key iv data = Normal sealed ->
    aes_gcm_decrypt key iv sealed = Normal data
}.

(** [crypto.getRandomValues(new Uint8Array(n))]: the random source is the
    function [rnd], read at positions [0 .. n-1]. *)
Definition getRandomValues_Uint8 (n : nat) (rnd : nat -> byte) : bytes :=
  List.map rnd (List.seq 0 n).

Definition generateSalt (rnd : nat -> byte) : bytes := getRandomValues_Uint8 SALT_LENGTH rnd.
Definition generateIV (rnd : nat -> byte) : bytes := getRandomValues_Uint8 IV_LENGTH rnd.

(** [new Uint8Array(IV_LENGTH)]: twelve zero bytes. *)
Definition zero_iv : bytes := List.repeat x00 IV_LENGTH.

Definition VERIFY : jsstring := js "VERIFY".

Record EncryptedData : Type := mk_EncryptedData {
  ciphertext : jsstring;
  iv : jsstring
}.

Section Crypto.
Context `{WC : WebCrypto}.

Definition deriveKey (masterPassword : jsstring) (salt : bytes)
  : completion CryptoKey :=
  let passwordBuffer := TextEncoder_encode masterPassword in
  pbkdf2_deriveKey passwordBuffer salt PBKDF2_ITERATIONS SHA_256 KEY_LENGTH.

Definition generateVerifier (masterPassword : jsstring) (salt : bytes)
  : completion jsstring :=
  key ← deriveKey masterPassword salt;
  let verifierData := TextEncoder_encode VERIFY in
  encrypted ← aes_gcm_encrypt key zero_iv verifierData;
  arrayBufferToBase64 encrypted.

Definition verifyMasterPassword (masterPassword : jsstring) (salt : bytes)
    (storedVerifier : jsstring) : completion bool :=
  try_catch
    (key ← deriveKey masterPassword salt;
     encryptedData ← base64ToArrayBuffer storedVerifier;
     decrypted ← aes_gcm_decrypt key zero_iv encryptedData;
     let decoded := TextDecoder_decode decrypted in
     Normal (str_eqb decoded VERIFY))
    (fun _ => Normal false).

Definition encryptData (data : jsstring) (key : CryptoKey) (rnd : nat -> byte)
  : completion EncryptedData :=
  let dataBuffer := TextEncoder_encode data in
  let iv := generateIV rnd in
  encrypted ← aes_gcm_encrypt key iv dataBuffer;
  c ← arrayBufferToBase64 encrypted;
  i ← arrayBufferToBase64 iv;
  Normal (mk_EncryptedData c i).

Definition decryptData (ciphertext iv : jsstring) (key : CryptoKey)
  : completion jsstring :=
  encryptedData ← base64ToArrayBuffer ciphertext;
  ivBuffer ← base64ToArrayBuffer iv;
  decrypted ← aes_gcm_decrypt key ivBuffer encryptedData;
  Normal (TextDecoder_decode decrypted).
End Crypto.

(** ** [generatePassword] *)

Record GenOptions : Type := mk_GenOptions {
  opt_uppercase : option bool;
  opt_lowercase : option bool;
  opt_numbers : option bool;
  opt_symbols : option bool
}.

Definition UPPER : jsstring := js "ABCDEFGHIJKLMNOPQRSTUVWXYZ".
Definition LOWER : jsstring := js "abcdefghijklmnopqrstuvwxyz".
Definition DIGITS : jsstring := js "0123456789".
Definition SYMBOLS : jsstring := js "!@#$%^&*()_+-=[]{}|;:,.<>?".
Definition ALNUM : jsstring :=
  js "abcdefghijklmnopqrstuvwxyzABCDEFGHIJKLMNOPQRSTUVWXYZ0123456789".

(** The character set after the four [if]s and the empty-set fallback. *)
Definition build_charset (options : GenOptions) : jsstring :=
  let uppercase := default true (opt_uppercase options) in
  let lowercase := default true (opt_lowercase options) in
  let numbers := default true (opt_numbers options) in
  let symbols := default true (opt_symbols options) in
  let charset := [] in
  let charset := if uppercase then charset ++ UPPER else charset in
  let charset := if lowercase then charset ++ LOWER else charset in
  let charset := if numbers then charset ++ DIGITS else charset in
  let charset := if symbols then charset ++ SYMBOLS else charset in
  match charset with
  | [] => ALNUM
  | _ => charset
  end.

(** [new Uint32Array(length)] then [crypto.getRandomValues(array)], for an
    integer [length].  The constructor throws a RangeError for a negative
    length and for one above 2^53 - 1; [getRandomValues] throws a
    QuotaExceededError for more than 65536 bytes.  Between these an engine
    that cannot allocate the array throws the constructor's RangeError
    instead: for more than 16384 elements the call throws in every engine,
    and which of the two errors it is, is the engine's.  Each slot holds the
    random value modulo 2^32. *)
Definition getRandomValues_Uint32 (length : Z) (rnd : nat -> Z) : completion (list Z) :=
  if (length <? 0) || (2 ^ 53 <=? length) then Throw RangeError
  else if 65536 <? 4 * length then Throw QuotaExceededError
  else Normal (List.map (fun i => rnd i mod 2 ^ 32) (List.seq 0 (Z.to_nat length))).

(** [s += charset[i]]: indexing past the end gives [undefined], which [+=]
    appends as the text "undefined". *)
Definition append_index (s charset : jsstring) (i : Z) : jsstring :=
  match charset !! Z.to_nat i with
  | Some c => s ++ [c]
  | None => s ++ js "undefined"
  end.

Definition generatePassword (length : Z) (options : GenOptions) (rnd : nat -> Z)
  : completion jsstring :=
  let charset := build_charset options in
  array ← getRandomValues_Uint32 length rnd;
  Normal (List.fold_left
            (fun password r =>
               append_index password charset (r mod Z.of_nat (List.length charset)))
            array []).

(** ** Actions: async functions over a mutable state *)

(** The completion of the call and the state it leaves behind: what was
    written before a throw stays written. *)
Definition action (S A : Type) : Type := S -> completion A * S.

Definition act_ret {S A} (a : A) : action S A := fun s => (Normal a, s).

Definition act_bind {S A B} (m : action S A) (k : A -> action S B) : action S B :=
  fun s =>
    match m s with
    | (Normal a, s') => k a s'
    | (Throw e, s') => (Throw e, s')
    end.

(** A call that does not touch the state. *)
Definition lift {S A} (c : completion A) : action S A := fun s => (c, s).

Definition modify {S} (f : S -> S) : action S unit := fun s => (Normal tt, f s).

Definition act_try {S A} (body : action S A) (handler : exn -> action S A) : action S A :=
  fun s =>
    match body s with
    | (Normal a, s') => (Normal a, s')
    | (Throw e, s') => handler e s'
    end.

#[global] Instance action_ret {S} : MRet (action S) := @act_ret S.
#[global] Instance action_bind {S} : MBind (action S) :=
  fun A B k m => act_bind m k.

(** ** [secureClipboardCopy]: the clipboard and the timer queue *)

(** A pending [setTimeout] callback of [secureClipboardCopy]; the closure
    captures the [text] of its own call. *)
Record Timer : Type := mk_Timer {
  fire_at : Z;
  captured_text : jsstring
}.

(** The page's view of the browser.  Whether [navigator.clipboard] fulfils
    a call depends on permissions and on the document having the focus at
    that moment: [write_granted t] and [read_granted t] say whether a
    [writeText] and a [readText] made at time [t] are fulfilled. *)
Record Browser : Type := mk_Browser {
  clock : Z;                    (* milliseconds *)
  clipboard : jsstring;         (* navigator.clipboard contents *)
  timers : list Timer;          (* pending callbacks, earliest first *)
  write_granted : Z -> bool;
  read_granted : Z -> bool
}.

(** [await navigator.clipboard.writeText(text)]: the promise rejects, and
    nothing is written, when the write is not granted. *)
Definition writeText (text : jsstring) : action Browser unit :=
  fun b =>
    if write_granted b (clock b)
    then (Normal tt,
          mk_Browser (clock b) text (timers b) (write_granted b) (read_granted b))
    else (Throw NotAllowedError, b).

(** [await navigator.clipboard.readText()] *)
Definition readText : action Browser jsstring :=
  fun b =>
    if read_granted b (clock b) then (Normal (clipboard b), b)
    else (Throw NotAllowedError, b).

(** [setTimeout]: callbacks fire in order of their time, and in order of
    registration when the times are equal. *)
Fixpoint enqueue (t : Timer) (q : list Timer) : list Timer :=
  match q with
  | [] => [t]
  | t' :: q' => if fire_at t <? fire_at t' then t :: q else t' :: enqueue t q'
  end.

(** The [long] of Web IDL that [setTimeout] takes its timeout as: an
    integer is reduced modulo 2^32 into the signed 32-bit range. *)
Definition to_long (x : Z) : Z :=
  let m := x mod 2 ^ 32 in
  if 2 ^ 31 <=? m then m - 2 ^ 32 else m.

(** [setTimeout(callback, timeout)] for an integer [timeout]: converted to
    a [long], a negative result counts as 0. *)
Definition setTimeout (text : jsstring) (timeout : Z) : action Browser unit :=
  fun b =>
    let delay := Z.max 0 (to_long timeout) in
    (Normal tt,
     mk_Browser (clock b) (clipboard b)
       (enqueue (mk_Timer (clock b + delay) text) (timers b))
       (write_granted b) (read_granted b)).

(** [secureClipboardCopy(text, clearAfterMs)] for an integer number of
    milliseconds: a rejected write ends the call before anything is
    scheduled. *)
Definition secureClipboardCopy (text : jsstring) (clearAfterMs : Z)
  : action Browser unit :=
  _ ← writeText text;
  if clearAfterMs >? 0 then setTimeout text clearAfterMs else mret tt.

(** The deferred callback: read the clipboard, clear it when it still holds
    the captured text.  A rejected read or write ends it there. *)
Definition timer_callback (text : jsstring) : action Browser unit :=
  current ← readText;
  if str_eqb current text then writeText [] else mret tt.

(** The head timer fires: it leaves the queue, the clock shows its time and
    its callback runs.  Nobody awaits the callback: when it rejects, the
    browser is left as the callback left it. *)
Definition fire (tm : Timer) (b : Browser) : Browser :=
  (timer_callback (captured_text tm)
     (mk_Browser (Z.max (clock b) (fire_at tm)) (clipboard b) (List.tl (timers b))
        (write_granted b) (read_granted b))).2.

(** Every callback of the queue [q] due by [t] runs, in order; [q] is the
    queue of [b]. *)
Fixpoint run_due (t : Z) (q : list Timer) (b : Browser) : Browser :=
  match q with
  | [] => b
  | tm :: q' => if fire_at tm <=? t then run_due t q' (fire tm b) else b
  end.

(** Time passes until [t]. *)
Definition advance_to (t : Z) (b : Browser) : Browser :=
  let b := run_due t (timers b) b in
  mk_Browser (Z.max (clock b) t) (clipboard b) (timers b)
    (write_granted b) (read_granted b).

(** ** [AuthProvider]: the session key manager *)

Record User : Type := mk_User { uid : jsstring }.

Record EncryptionProfile : Type := mk_EncryptionProfile {
  salt : jsstring;
  verifier : jsstring;
  kdf : jsstring;
  kdfParams_iterations : Z;
  kdfParams_hash : jsstring
}.

(** The document [users/<uid>/profile/main]; a document written by another
    client may lack the [encryption] field. *)
Record ProfileDoc : Type := mk_ProfileDoc {
  displayName : jsstring;
  email : jsstring;
  createdAt : jsstring;
  encryption : option EncryptionProfile
}.

(** What the external collaborators answer: the identity service, the clock
    and whether the document store can be reached. *)
Record Backend : Type := mk_Backend {
  createUserWithEmailAndPassword : jsstring -> jsstring -> completion User;
  signInWithEmailAndPassword : jsstring -> jsstring -> completion User;
  signOut : completion unit;
  firestore_reachable : bool;
  now_iso : jsstring
}.

(** [email.split('@')[0]] *)
Fixpoint before_at (email : jsstring) : jsstring :=
  match email with
  | [] => []
  | c :: rest => if c =? 64 then [] else c :: before_at rest
  end.

Section Session.
Context `{WC : WebCrypto}.

(** The four [useState] cells of [AuthProvider], the profile documents of
    the store, and the errors written to the console. *)
Record Session : Type := mk_Session {
  user : option User;
  loading : bool;
  encryptionKey : option CryptoKey;
  isUnlocked : bool;
  profiles : gmap jsstring ProfileDoc;
  console_errors : list exn
}.

Definition initial_session (store : gmap jsstring ProfileDoc) : Session :=
  mk_Session None true None false store [].

Definition setUser (u : option User) : action Session unit :=
  modify (fun s => mk_Session u (loading s) (encryptionKey s) (isUnlocked s)
                     (profiles s) (console_errors s)).
Definition setLoading (l : bool) : action Session unit :=
  modify (fun s => mk_Session (user s) l (encryptionKey s) (isUnlocked s)
                     (profiles s) (console_errors s)).
Definition setEncryptionKey (k : option CryptoKey) : action Session unit :=
  modify (fun s => mk_Session (user s) (loading s) k (isUnlocked s)
                     (profiles s) (console_errors s)).
Definition setIsUnlocked (u : bool) : action Session unit :=
  modify (fun s => mk_Session (user s) (loading s) (encryptionKey s) u
                     (profiles s) (console_errors s)).
Definition console_error (e : exn) : action Session unit :=
  modify (fun s => mk_Session (user s) (loading s) (encryptionKey s) (isUnlocked s)
                     (profiles s) (console_errors s ++ [e])).

(** [getDoc(doc(db, 'users', uid, 'profile', 'main'))]: [None] is a
    snapshot with [exists() = false]. *)
Definition getDoc (B : Backend) (id : jsstring) : action Session (option ProfileDoc) :=
  fun s =>
    if firestore_reachable B then (Normal (profiles s !! id), s)
    else (Throw FirebaseError, s).

(** [setDoc(doc(db, 'users', uid, 'profile', 'main'), d)] *)
Definition setDoc (B : Backend) (id : jsstring) (d : ProfileDoc) : action Session unit :=
  fun s =>
    if firestore_reachable B
    then (Normal tt, mk_Session (user s) (loading s) (encryptionKey s) (isUnlocked s)
                       (<[id := d]> (profiles s)) (console_errors s))
    else (Throw FirebaseError, s).

(** The callback registered with [onAuthStateChanged]. *)
Definition onAuthStateChanged_callback (u : option User) : action Session unit :=
  _ ← setUser u;
  _ ← setLoading false;
  match u with
  | None =>
      _ ← setEncryptionKey None;
      setIsUnlocked false
  | Some _ => mret tt
  end.

(** [signUp].  When [createUserWithEmailAndPassword] is fulfilled the
    account exists and is signed in, and the callback registered with
    [onAuthStateChanged] has run for it before the next [await] can throw.
    Which accounts exist is the identity service's own state; its answers
    are the [Backend]'s.  [deriveKey] is a function of its arguments, so the
    last call returns the key that [generateVerifier] derived. *)
Definition signUp (B : Backend) (rnd : nat -> byte)
    (email password masterPassword : jsstring) : action Session unit :=
  userCredential ← lift (createUserWithEmailAndPassword B email password);
  _ ← onAuthStateChanged_callback (Some userCredential);
  let uid := uid userCredential in
  let salt := generateSalt rnd in
  verifier ← lift (generateVerifier masterPassword salt);
  salt64 ← lift (arrayBufferToBase64 salt);
  let encryptionProfile :=
    mk_EncryptionProfile salt64 verifier (js "PBKDF2") 200000 (js "SHA-256") in
  _ ← setDoc B uid
        (mk_ProfileDoc (before_at email) email (now_iso B) (Some encryptionProfile));
  key ← lift (deriveKey masterPassword salt);
  _ ← setEncryptionKey (Some key);
  setIsUnlocked true.

Definition signIn (B : Backend) (email password : jsstring) : action Session unit :=
  _ ← lift (signInWithEmailAndPassword B email password);
  mret tt.

Definition logout (B : Backend) : action Session unit :=
  _ ← setEncryptionKey None;
  _ ← setIsUnlocked false;
  lift (signOut B).

Definition unlockVault (B : Backend) (masterPassword : jsstring) : action Session bool :=
  fun s =>
    match user s with
    | None => (Normal false, s)
    | Some user =>
        act_try
          (profileDoc ← getDoc B (uid user);
           match profileDoc with
           | None => mret false
           | Some profile =>
               encryption ← lift (match encryption profile with
                                  | Some e => Normal e
                                  | None => Throw TypeError
                                  end);
               saltBuffer ← lift (base64ToArrayBuffer (salt encryption));
               isValid ← lift (verifyMasterPassword masterPassword saltBuffer
                                 (verifier encryption));
               if isValid : bool then
                 key ← lift (deriveKey masterPassword saltBuffer);
                 _ ← setEncryptionKey (Some key);
                 _ ← setIsUnlocked true;
                 mret true
               else mret false
           end)
          (fun error =>
             _ ← console_error error;
             mret false)
          s
    end.

Definition lockVault : action Session unit :=
  _ ← setEncryptionKey None;
  setIsUnlocked false.
End Session.

Section Operations.
Context `{WC : WebCrypto}.

(** Everything that can happen to the session key manager. *)
Inductive operation : Type :=
  | OpSignUp (rnd : nat -> byte) (email password masterPassword : jsstring)
  | OpSignIn (email password : jsstring)
  | OpLogout
  | OpUnlockVault (masterPassword : jsstring)
  | OpLockVault
  | OpAuthStateChanged (u : option User).

(** The session after an operation, whether it returned or threw. *)
Definition run_operation (B : Backend) (op : operation) (s : Session) : Session :=
  match op with
  | OpSignUp rnd email password masterPassword =>
      (signUp B rnd email password masterPassword s).2
  | OpSignIn email password => (signIn B email password s).2
  | OpLogout => (logout B s).2
  | OpUnlockVault masterPassword => (unlockVault B masterPassword s).2
  | OpLockVault => (lockVault s).2
  | OpAuthStateChanged u => (onAuthStateChanged_callback u s).2
  end.

(** A session key exists exactly when the vault is unlocked. *)
Definition key_iff_unlocked (s : Session) : Prop :=
  is_Some (encryptionKey s) <-> isUnlocked s = true.

Definition Locked (s : Session) : Prop :=
  encryptionKey s = None /\ isUnlocked s = false.

(** The session cells and the store agree; only the console may differ. *)
Definition same_session (s s' : Session) : Prop :=
  user s' = user s /\ loading s' = loading s /\
  encryptionKey s' = encryptionKey s /\ isUnlocked s' = isUnlocked s /\
  profiles s' = profiles s.

(** The ways an unlock attempt can fail: nobody is signed in, the store
    cannot be reached, the profile document is missing or has no
    encryption profile, its salt is not base64, or the verifier rejects
    the candidate password. *)
Inductive unlock_failure (B : Backend) (masterPassword : jsstring) (s : Session) : Prop :=
  | no_user :
      user s = None -> unlock_failure B masterPassword s
  | store_unreachable u :
      user s = Some u -> firestore_reachable B = false ->
      unlock_failure B masterPassword s
  | profile_missing u :
      user s = Some u -> firestore_reachable B = true ->
      profiles s !! uid u = None ->
      unlock_failure B masterPassword s
  | profile_without_encryption u p :
      user s = Some u -> firestore_reachable B = true ->
      profiles s !! uid u = Some p -> encryption p = None ->
      unlock_failure B masterPassword s
  | salt_undecodable u p enc e :
      user s = Some u -> firestore_reachable B = true ->
      profiles s !! uid u = Some p -> encryption p = Some enc ->
      base64ToArrayBuffer (salt enc) = Throw e ->
      unlock_failure B masterPassword s
  | verification_failed u p enc saltBuffer :
      user s = Some u -> firestore_reachable B = true ->
      profiles s !! uid u = Some p -> encryption p = Some enc ->
      base64ToArrayBuffer (salt enc) = Normal saltBuffer ->
      verifyMasterPassword masterPassword saltBuffer (verifier enc) = Normal false ->
      unlock_failure B masterPassword s.
End Operations.

(** ** [Passwords]: decrypting a snapshot of stored records *)

Module Passwords.

(** A parsed JSON value; [JSON.parse] itself is a parameter below. *)
Inductive json : Type :=
  | JNull
  | JBool (b : bool)
  | JNumber (n : Z)
  | JString (s : jsstring)
  | JArray (items : list json)
  | JObject (fields : list (jsstring * json)).

(** [v.name]: a TypeError on [null], [undefined] ([None]) when the value
    has no such own property. *)
Definition get_property (v : json) (name : jsstring) : completion (option json) :=
  match v with
  | JNull => Throw TypeError
  | JObject fields =>
      Normal (snd <$> List.find (fun kv => str_eqb (fst kv) name) (List.rev fields))
  | _ => Normal None
  end.

Record EncryptedPasswordDoc : Type := mk_EncryptedPasswordDoc {
  doc_id : jsstring;
  doc_title : jsstring;
  doc_ciphertext : jsstring;
  doc_iv : jsstring;
  doc_tags : option (list jsstring);
  doc_createdAt : jsstring;
  doc_updatedAt : jsstring
}.

Record PasswordEntry : Type := mk_PasswordEntry {
  id : jsstring;
  title : jsstring;
  username : option json;
  password : option json;
  url : option json;
  notes : option json;
  tags : list jsstring;
  createdAt : jsstring;
  updatedAt : jsstring
}.

Record PageState : Type := mk_PageState {
  passwords : list PasswordEntry;
  loading : bool;
  console_errors : list exn
}.

Section Loader.
Context `{WC : WebCrypto}.
Variable JSON_parse : jsstring -> completion json.

(** The body of the [try] block for one document. *)
Definition decrypt_entry (encryptionKey : CryptoKey) (d : EncryptedPasswordDoc)
  : completion PasswordEntry :=
  decryptedJson ← decryptData (doc_ciphertext d) (doc_iv d) encryptionKey;
  decrypted ← JSON_parse decryptedJson;
  username ← get_property decrypted (js "username");
  password ← get_property decrypted (js "password");
  url ← get_property decrypted (js "url");
  notes ← get_property decrypted (js "notes");
  Normal (mk_PasswordEntry (doc_id d) (doc_title d) username password url notes
            (default [] (doc_tags d)) (doc_createdAt d) (doc_updatedAt d)).

(** One iteration of [for (const docSnapshot of snapshot.docs)]: push
    on success, [console.error] in the [catch]. *)
Definition loop_body (encryptionKey : CryptoKey)
    (acc : list PasswordEntry * list exn) (d : EncryptedPasswordDoc)
  : list PasswordEntry * list exn :=
  match decrypt_entry encryptionKey d with
  | Normal entry => (acc.1 ++ [entry], acc.2)
  | Throw error => (acc.1, acc.2 ++ [error])
  end.

(** What the [try] block contributes for one document: an entry to
    show, or an error to log. *)
Definition shown (encryptionKey : CryptoKey) (d : EncryptedPasswordDoc)
  : option PasswordEntry :=
  match decrypt_entry encryptionKey d with
  | Normal entry => Some entry
  | Throw _ => None
  end.

Definition logged (encryptionKey : CryptoKey) (d : EncryptedPasswordDoc)
  : option exn :=
  match decrypt_entry encryptionKey d with
  | Normal _ => None
  | Throw error => Some error
  end.

(** The [onSnapshot] callback: the loop, then [setPasswords] and
    [setLoading(false)]. *)
Definition onSnapshot_callback (encryptionKey : CryptoKey)
    (docs : list EncryptedPasswordDoc) (st : PageState) : PageState :=
  let '(decryptedPasswords, errors) :=
    List.fold_left (loop_body encryptionKey) docs ([], []) in
  mk_PageState decryptedPasswords false (console_errors st ++ errors).
End Loader.
End Passwords.

(** ** [crypto.ts]: files *)

Record EncryptedFile : Type := mk_EncryptedFile {
  encryptedData : bytes;
  file_iv : jsstring
}.

Section CryptoFiles.
Context `{WC : WebCrypto}.

Definition encryptFile (file : bytes) (key : CryptoKey) (rnd : nat -> byte)
  : completion EncryptedFile :=
  let iv := generateIV rnd in
  encrypted ← aes_gcm_encrypt key iv file;
  i ← arrayBufferToBase64 iv;
  Normal (mk_EncryptedFile encrypted i).

Definition decryptFile (encryptedData : bytes) (iv : jsstring) (key : CryptoKey)
  : completion bytes :=
  ivBuffer ← base64ToArrayBuffer iv;
  aes_gcm_decrypt key ivBuffer encryptedData.
End CryptoFiles.

(** ** [AppLayout] and [UnlockVault]: what the session lets the user see *)

Inductive Screen : Type :=
  | LoadingSpinner        (* the centred spinner *)
  | NavigateToAuth        (* <Navigate to="/auth" replace /> *)
  | UnlockVaultScreen     (* <UnlockVault /> *)
  | AppContent.           (* the sidebar and the <Outlet /> of the pages *)

(** The state of the [UnlockVault] form. *)
Record UnlockForm : Type := mk_UnlockForm {
  form_masterPassword : jsstring;
  form_showPassword : bool;
  form_loading : bool;
  form_error : jsstring
}.

Section Screens.
Context `{WC : WebCrypto}.

Definition AppLayout (s : Session) : Screen :=
  if loading s then LoadingSpinner
  else match user s with
       | None => NavigateToAuth
       | Some _ => if negb (isUnlocked s) then UnlockVaultScreen else AppContent
       end.

Definition setError (e : jsstring) (f : UnlockForm) : UnlockForm :=
  mk_UnlockForm (form_masterPassword f) (form_showPassword f) (form_loading f) e.
Definition setFormLoading (l : bool) (f : UnlockForm) : UnlockForm :=
  mk_UnlockForm (form_masterPassword f) (form_showPassword f) l (form_error f).

(** [handleUnlock]: the [try] around [unlockVault], the [catch] and the
    [finally]. *)
Definition handleUnlock (B : Backend) (f : UnlockForm) (s : Session)
  : UnlockForm * Session :=
  let f := setError [] f in
  let f := setFormLoading true f in
  match unlockVault B (form_masterPassword f) s with
  | (Normal success, s') =>
      let f := if negb success then setError (js "Incorrect master password") f else f in
      (setFormLoading false f, s')
  | (Throw _, s') =>
      let f := setError (js "Failed to unlock vault") f in
      (setFormLoading false f, s')
  end.
End Screens.

(** ** String helpers of the pages *)

(** [\d] of a regular expression without flags. *)
Definition is_digit (c : Z) : bool := in_range 48 57 c.

(** [\s], which is also what [trim] removes: WhiteSpace and LineTerminator
    of ECMAScript. *)
Definition is_js_whitespace (c : Z) : bool :=
  in_range 9 13 c || (c =? 32) || (c =? 0xA0) || (c =? 0x1680)
  || in_range 0x2000 0x200A c || (c =? 0x2028) || (c =? 0x2029) || (c =? 0x202F)
  || (c =? 0x205F) || (c =? 0x3000) || (c =? 0xFEFF).

(** [s.replace(/\D/g, '')] *)
Definition remove_non_digits (s : jsstring) : jsstring := List.filter is_digit s.

(** [s.replace(/\s/g, '')] *)
Definition remove_whitespace (s : jsstring) : jsstring :=
  List.filter (fun c => negb (is_js_whitespace c)) s.

(** [s.match(/.{1,4}/g)] on a string without line terminators: groups of
    four from the left, a shorter last group; no group ([null]) for the
    empty string. *)
Fixpoint match_groups_of_4 (s : jsstring) : list jsstring :=
  match s with
  | [] => []
  | a :: b :: c :: d :: rest => [a; b; c; d] :: match_groups_of_4 rest
  | _ => [s]
  end.

(** [l.join(sep)] *)
Fixpoint join (sep : jsstring) (l : list jsstring) : jsstring :=
  match l with
  | [] => []
  | [x] => x
  | x :: rest => x ++ sep ++ join sep rest
  end.

(** [s.slice(a, b)] for [0 <= a <= b]. *)
Definition slice (a b : nat) (s : jsstring) : jsstring := take (b - a) (drop a s).

(** [s.slice(-n)]: the last [n] code units, or all of [s] when it is
    shorter. *)
Definition slice_last (n : nat) (s : jsstring) : jsstring :=
  drop (List.length s - n) s.

(** [s.split(',')] and the like, for a separator of one code unit. *)
Fixpoint split_on (sep : Z) (s : jsstring) : list jsstring :=
  match s with
  | [] => [[]]
  | c :: rest =>
      if c =? sep then [] :: split_on sep rest
      else match split_on sep rest with
           | cur :: more => (c :: cur) :: more
           | [] => [[c]]
           end
  end.

Fixpoint trimStart (s : jsstring) : jsstring :=
  match s with
  | [] => []
  | c :: rest => if is_js_whitespace c then trimStart rest else s
  end.

Definition trimEnd (s : jsstring) : jsstring := List.rev (trimStart (List.rev s)).

(** [s.trim()] *)
Definition trim (s : jsstring) : jsstring := trimEnd (trimStart s).

(** ** [Vault]: the card form *)

Definition formatCardNumber (value : jsstring) : jsstring :=
  let cleaned := remove_non_digits value in
  match match_groups_of_4 cleaned with
  | [] => cleaned
  | groups => join (js " ") groups
  end.

Definition formatExpiry (value : jsstring) : jsstring :=
  let cleaned := remove_non_digits value in
  if (2 <=? List.length cleaned)%nat
  then slice 0 2 cleaned ++ js "/" ++ slice 2 4 cleaned
  else cleaned.

(** The [maskedPreview] that [handleSave] stores in the clear beside the
    ciphertext. *)
Definition maskedPreview (cardNumber : jsstring) : jsstring :=
  let cleanedNumber := remove_whitespace cardNumber in
  js "**** **** **** " ++ slice_last 4 cleanedNumber.

(** ** [Passwords], [Notes]: tags and revealed entries *)

(** [formData.tags.split(',').map((t) => t.trim()).filter(Boolean)] *)
Definition parse_tags (text : jsstring) : list jsstring :=
  List.filter (fun t => negb (str_eqb t [])) (List.map trim (split_on 44 text)).

(** [tags.join(', ')], the text [handleOpenDialog] puts into the form. *)
Definition show_tags (tags : list jsstring) : jsstring := join (js ", ") tags.

(** [toggleReveal]: a copy of the previous set, with [id] removed when it
    was there and added when it was not. *)
Definition toggleReveal (id : jsstring) (prev : gset jsstring) : gset jsstring :=
  if decide (id ∈ prev) then prev ∖ {[id]} else prev ∪ {[id]}.

(** ** [Todos]: the items of a list *)

Record TodoItem : Type := mk_TodoItem {
  item_id : jsstring;
  item_text : jsstring;
  item_completed : bool
}.

(** The [updatedItems] of [handleToggleItem]. *)
Definition toggle_item (itemId : jsstring) (items : list TodoItem) : list TodoItem :=
  List.map
    (fun item =>
       if str_eqb (item_id item) itemId
       then mk_TodoItem (item_id item) (item_text item) (negb (item_completed item))
       else item)
    items.

(** The [items] that [handleDeleteItem] writes. *)
Definition delete_item (itemId : jsstring) (items : list TodoItem) : list TodoItem :=
  List.filter (fun item => negb (str_eqb (item_id item) itemId)) items.

(** [completedCount] of the list card. *)
Definition completedCount (items : list TodoItem) : nat :=
  List.length (List.filter item_completed items).

(** ** [JSON.stringify] of an object whose values are strings

    [handleSave] of [Passwords] and of [Vault] encrypt
    [JSON.stringify({k1: v1, ...})] with string values.  The text is written
    out after ECMAScript's QuoteJSONString: the short escapes, [\uXXXX] (in
    lower case) for the other control characters and for unpaired
    surrogates, everything else as it is. *)

Definition hex_digit (v : Z) : Z := if v <? 10 then 48 + v else 97 + (v - 10).

Definition UnicodeEscape (c : Z) : jsstring :=
  [92; 117; hex_digit (Z.shiftr c 12 mod 16); hex_digit (Z.shiftr c 8 mod 16);
   hex_digit (Z.shiftr c 4 mod 16); hex_digit (c mod 16)].

(** One code unit that is not a surrogate. *)
Definition quote_unit (c : Z) : jsstring :=
  if c =? 8 then [92; 98]             (* \b *)
  else if c =? 9 then [92; 116]       (* \t *)
  else if c =? 10 then [92; 110]      (* \n *)
  else if c =? 12 then [92; 102]      (* \f *)
  else if c =? 13 then [92; 114]      (* \r *)
  else if c =? 34 then [92; 34]       (* the double quote *)
  else if c =? 92 then [92; 92]       (* the backslash *)
  else if c <? 0x20 then UnicodeEscape c
  else [c].

Fixpoint quote_code_points (s : jsstring) : jsstring :=
  match s with
  | [] => []
  | c :: rest =>
      if is_lead c then
        match rest with
        | d :: rest' =>
            if is_trail d then c :: d :: quote_code_points rest'
            else UnicodeEscape c ++ quote_code_points rest
        | [] => UnicodeEscape c
        end
      else if is_trail c then UnicodeEscape c ++ quote_code_points rest
      else quote_unit c ++ quote_code_points rest
  end.

Definition QuoteJSONString (s : jsstring) : jsstring :=
  [34] ++ quote_code_points s ++ [34].

(** [JSON.stringify] of [{k1: v1, k2: v2, ...}], the keys in insertion
    order. *)
Definition JSON_stringify_strings (fields : list (jsstring * jsstring)) : jsstring :=
  [123]
  ++ join [44] (List.map (fun kv => QuoteJSONString kv.1 ++ [58] ++ QuoteJSONString kv.2) fields)
  ++ [125].

(** The [sensitiveData] of [Passwords.handleSave]. *)
Definition password_sensitiveData (username password url notes : jsstring) : jsstring :=
  JSON_stringify_strings
    [(js "username", username); (js "password", password); (js "url", url);
     (js "notes", notes)].

(** The [sensitiveData] of [Vault.handleSave]. *)
Definition card_sensitiveData (cardNumber expiry name cvv : jsstring) : jsstring :=
  JSON_stringify_strings
    [(js "cardNumber", remove_whitespace cardNumber); (js "expiry", expiry);
     (js "name", name); (js "cvv", cvv)].

(** ** [Notes]: what [handleSave] writes and what the loader shows *)

Module Notes.

(** A note as Firestore holds it; the optional fields of [NoteDoc], and the
    fields the loader reads with [||], are [option]s. *)
Record NoteDoc : Type := mk_NoteDoc {
  doc_title : jsstring;
  doc_bodyCiphertext : option jsstring;
  doc_bodyPlain : option jsstring;
  doc_iv : option jsstring;
  doc_isSensitive : bool;
  doc_isPinned : option bool;
  doc_tags : option (list jsstring);
  doc_createdAt : jsstring;
  doc_updatedAt : jsstring
}.

Record Note : Type := mk_Note {
  note_id : jsstring;
  note_title : jsstring;
  note_body : jsstring;
  note_isSensitive : bool;
  note_isPinned : bool;
  note_tags : list jsstring;
  note_createdAt : jsstring;
  note_updatedAt : jsstring
}.

Record NoteForm : Type := mk_NoteForm {
  form_title : jsstring;
  form_body : jsstring;
  form_isSensitive : bool;
  form_tags : jsstring
}.

(** A string field in a condition: [undefined] and the empty string are
    falsy. *)
Definition truthy (s : option jsstring) : bool :=
  match s with
  | Some (_ :: _) => true
  | _ => false
  end.

(** [s || ''] *)
Definition or_empty (s : option jsstring) : jsstring := default [] s.

Section Page.
Context `{WC : WebCrypto}.

(** The body of the loader's [try] for one document. *)
Definition load_note (encryptionKey : CryptoKey) (id : jsstring) (data : NoteDoc)
  : completion Note :=
  body ← (if doc_isSensitive data && truthy (doc_bodyCiphertext data)
             && truthy (doc_iv data)
          then decryptData (or_empty (doc_bodyCiphertext data)) (or_empty (doc_iv data))
                 encryptionKey
          else Normal (or_empty (doc_bodyPlain data)));
  Normal (mk_Note id (doc_title data) body (doc_isSensitive data)
            (default false (doc_isPinned data)) (default [] (doc_tags data))
            (doc_createdAt data) (doc_updatedAt data)).

(** The [docData] of [handleSave], as the document it leaves in the store:
    [updateDoc] keeps the fields of the edited note that [docData] does not
    name ([createdAt], [isPinned]); [addDoc] gets them from [handleSave]. *)
Definition docData (editingNote : option NoteDoc) (formData : NoteForm)
    (encryptionKey : CryptoKey) (rnd : nat -> byte) (now : jsstring)
  : completion NoteDoc :=
  let tags := parse_tags (form_tags formData) in
  body ← (if form_isSensitive formData
          then c ← encryptData (form_body formData) encryptionKey rnd;
               Normal (ciphertext c, iv c, [])
          else Normal ([], [], form_body formData));
  Normal (mk_NoteDoc (form_title formData)
            (Some body.1.1) (Some body.2) (Some body.1.2)
            (form_isSensitive formData)
            (match editingNote with
             | Some old => doc_isPinned old
             | None => Some false
             end)
            (Some tags)
            (match editingNote with
             | Some old => doc_createdAt old
             | None => now
             end)
            now).

(** [handleSave]: the document written, [None] when nothing is written (no
    title, or [encryptData] threw and the [catch] reported it). *)
Definition handleSave (editingNote : option NoteDoc) (formData : NoteForm)
    (encryptionKey : CryptoKey) (rnd : nat -> byte) (now : jsstring)
  : option NoteDoc :=
  match form_title formData with
  | [] => None
  | _ :: _ =>
      match docData editingNote formData encryptionKey rnd now with
      | Normal d => Some d
      | Throw _ => None
      end
  end.

End Page.

End Notes.

(** ** [PasswordGenerator]: the component's state and its handlers *)

Record GeneratorState : Type := mk_GeneratorState {
  gen_length : Z;
  gen_uppercase : bool;
  gen_lowercase : bool;
  gen_numbers : bool;
  gen_symbols : bool;
  gen_password : jsstring;
  gen_copied : bool
}.

Definition setLength (value : Z) (st : GeneratorState) : GeneratorState :=
  mk_GeneratorState value (gen_uppercase st) (gen_lowercase st) (gen_numbers st)
    (gen_symbols st) (gen_password st) (gen_copied st).

Definition setUppercase (checked : bool) (st : GeneratorState) : GeneratorState :=
  mk_GeneratorState (gen_length st) checked (gen_lowercase st) (gen_numbers st)
    (gen_symbols st) (gen_password st) (gen_copied st).

Definition setLowercase (checked : bool) (st : GeneratorState) : GeneratorState :=
  mk_GeneratorState (gen_length st) (gen_uppercase st) checked (gen_numbers st)
    (gen_symbols st) (gen_password st) (gen_copied st).

Definition setNumbers (checked : bool) (st : GeneratorState) : GeneratorState :=
  mk_GeneratorState (gen_length st) (gen_uppercase st) (gen_lowercase st) checked
    (gen_symbols st) (gen_password st) (gen_copied st).

Definition setSymbols (checked : bool) (st : GeneratorState) : GeneratorState :=
  mk_GeneratorState (gen_length st) (gen_uppercase st) (gen_lowercase st)
    (gen_numbers st) checked (gen_password st) (gen_copied st).

Definition setPassword (p : jsstring) (st : GeneratorState) : GeneratorState :=
  mk_GeneratorState (gen_length st) (gen_uppercase st) (gen_lowercase st)
    (gen_numbers st) (gen_symbols st) p (gen_copied st).

Definition setCopied (b : bool) (st : GeneratorState) : GeneratorState :=
  mk_GeneratorState (gen_length st) (gen_uppercase st) (gen_lowercase st)
    (gen_numbers st) (gen_symbols st) (gen_password st) b.

(** The first render: [useState(16)], the four flags [true], and the
    password of the lazy initialiser. *)
Definition initial_generator (rnd : nat -> Z) : completion GeneratorState :=
  p ← generatePassword 16 (mk_GenOptions (Some true) (Some true) (Some true) (Some true)) rnd;
  Normal (mk_GeneratorState 16 true true true true p false).

(** The options object that [regenerate] builds from the values of the
    render that created it. *)
Definition render_options (render : GeneratorState) : GenOptions :=
  mk_GenOptions (Some (gen_uppercase render)) (Some (gen_lowercase render))
    (Some (gen_numbers render)) (Some (gen_symbols render)).

(** [regenerate] is a closure of one render ([useCallback] with all five
    values as dependencies): [length] and the flags it passes on are the
    values [render] of that render, whatever the state [st] is when it
    runs. *)
Definition regenerate (render : GeneratorState) (rnd : nat -> Z) (st : GeneratorState)
  : completion unit * GeneratorState :=
  match generatePassword (gen_length render) (render_options render) rnd with
  | Normal newPassword => (Normal tt, setCopied false (setPassword newPassword st))
  | Throw e => (Throw e, st)
  end.

(** The slider's handler of the render [render]:
    [setLength(value); regenerate()]. *)
Definition onValueChange (render : GeneratorState) (value : Z) (rnd : nat -> Z)
    (st : GeneratorState) : completion unit * GeneratorState :=
  regenerate render rnd (setLength value st).

(** The handlers of the four switches of the render [render]:
    [setX(checked); setTimeout(regenerate, 0)]; the timer runs the
    [regenerate] that the handler's render created. *)
Definition onCheckedChange (setX : bool -> GeneratorState -> GeneratorState)
    (render : GeneratorState) (checked : bool) (rnd : nat -> Z) (st : GeneratorState)
  : completion unit * GeneratorState :=
  regenerate render rnd (setX checked st).

(** ** A lawful instance of the interface, to run the code on concrete inputs

    Sealing prefixes the data with the key and the nonce; opening checks the
    prefix.  It satisfies the AEAD law (and protects nothing). *)

Fixpoint strip_prefix (p l : bytes) : option bytes :=
  match p, l with
  | [], _ => Some l
  | x :: p', y :: l' => if Byte.eqb x y then strip_prefix p' l' else None
  | _ :: _, [] => None
  end.

Definition demo_derive (pw salt : bytes) (iterations : Z) (h : kdf_hash) (len : Z)
  : completion bytes := Normal (pw ++ salt).
Definition demo_seal (key iv data : bytes) : completion bytes :=
  Normal (key ++ iv ++ data).
Definition demo_open (key iv sealed : bytes) : completion bytes :=
  match strip_prefix (key ++ iv) sealed with
  | Some data => Normal data
  | None => Throw OperationError
  end.

Lemma strip_prefix_app (p data : bytes) : strip_prefix p (p ++ data) = Some data.
Proof.
  induction p as [|x p IH]; simpl; [reflexivity|].
  rewrite (Byte.byte_dec_lb eq_refl). exact IH.
Qed.

Lemma demo_open_sealed (key iv data sealed : bytes) :
  demo_seal key iv data = Normal sealed -> demo_open key iv sealed = Normal data.
Proof.
  unfold demo_seal, demo_open. intros [= <-].
  rewrite app_assoc, strip_prefix_app. reflexivity.
Qed.

Definition demo_crypto : WebCrypto :=
  {| CryptoKey := bytes;
     pbkdf2_deriveKey := demo_derive;
     aes_gcm_encrypt := demo_seal;
     aes_gcm_decrypt := demo_open;
     aes_gcm_open_sealed := demo_open_sealed |}.

(** Sample inputs for the runs below. *)
Definition demo_rnd (i : nat) : byte := byte_of_Z (Z.of_nat i * 37 + 11).
Definition demo_key : @CryptoKey demo_crypto := [x01; x02; x03].

Definition alice : User := mk_User (js "alice-uid").
Definition bob : User := mk_User (js "bob-uid").

(** An identity service that accepts everybody and a reachable store. *)
Definition demo_backend : Backend :=
  mk_Backend (fun _ _ => Normal alice) (fun _ _ => Normal alice) (Normal tt) true
    (js "2024-01-01T00:00:00.000Z").

(** Alice has registered with master password "CorrectHorse1234!" and the
    identity callback has run: signed in, vault unlocked. *)
Definition demo_unlocked_session : @Session demo_crypto :=
  (onAuthStateChanged_callback (Some alice)
     (signUp demo_backend demo_rnd (js "alice@example.org") (js "pw")
        (js "CorrectHorse1234!") (initial_session ∅)).2).2.

(** The same after [lockVault]. *)
Definition demo_locked_session : @Session demo_crypto :=
  (lockVault demo_unlocked_session).2.

(** A stand-in for [JSON.parse]: the empty text is a syntax error, any other
    text is taken as the value of the [password] field. *)
Definition demo_parse (text : jsstring) : completion Passwords.json :=
  match text with
  | [] => Throw SyntaxError
  | _ => Normal (Passwords.JObject [(js "password", Passwords.JString text)])
  end.

(** A stored record: its id and ciphertext, under the nonce that
    [encryptData] draws from [demo_rnd]. *)
Definition demo_doc (id text64 : string) : Passwords.EncryptedPasswordDoc :=
  Passwords.mk_EncryptedPasswordDoc (js id) (js "title") (js text64)
    (js "CzBVep/E6Q4zWH2i") None (js "2024-01-01") (js "2024-01-02").

(** ** Auxiliary notions used in the statements and proofs *)

Definition is_byte_value (z : Z) : Prop := 0 <= z < 256.
Definition is_sextet (z : Z) : Prop := 0 <= z < 64.

(** A Unicode scalar value: a code point that is not a surrogate. *)
Definition is_scalar (cp : Z) : bool :=
  ((0 <=? cp) && (cp <? 0xD800)) || ((0xE000 <=? cp) && (cp <? 0x110000)).

(** The decoder run over a prefix of its input: what it has emitted and the
    state it is in. *)
Fixpoint utf8_feed (st : utf8_state) (l : list Z) : list Z * utf8_state :=
  match l with
  | [] => ([], st)
  | b :: l' =>
      let '(out, st') := utf8_step st b in
      let '(out', st'') := utf8_feed st' l' in
      (out ++ out', st'')
  end.

Definition starts_with_bom (s : jsstring) : bool :=
  match s with
  | c :: _ => c =? 0xFEFF
  | [] => false
  end.

(** A flag left out of the options object counts as enabled. *)
Definition enabled (flag : option bool) : bool := default true flag.

(** The characters the options allow: those of the enabled classes, or the
    alphanumeric ones when no class is enabled. *)
Definition allowed_char (options : GenOptions) (c : Z) : Prop :=
  if enabled (opt_uppercase options) || enabled (opt_lowercase options)
     || enabled (opt_numbers options) || enabled (opt_symbols options)
  then (enabled (opt_uppercase options) = true /\ c ∈ UPPER) \/
       (enabled (opt_lowercase options) = true /\ c ∈ LOWER) \/
       (enabled (opt_numbers options) = true /\ c ∈ DIGITS) \/
       (enabled (opt_symbols options) = true /\ c ∈ SYMBOLS)
  else c ∈ ALNUM.

Section SessionNotions.
Context `{WC : WebCrypto}.

(** The session a successful unlock leaves: the key installed, everything
    else as before. *)
Definition unlocked_with (key : CryptoKey) (s : Session) : Session :=
  mk_Session (user s) (loading s) (Some key) true (profiles s) (console_errors s).
End SessionNotions.

(** A tag as [parse_tags] leaves it: not empty, without a comma, without
    white space at either end. *)
Definition clean_tag (t : jsstring) : bool :=
  negb (str_eqb t [])
  && forallb (fun c => negb (c =? 44)) t
  && negb (is_js_whitespace (List.hd 0 t))
  && negb (is_js_whitespace (List.hd 0 (List.rev t))).

(** What the loader shows for a field of the parsed text: the property's
    value, [undefined] when the value has no such property. *)
Definition shown_field (decrypted : Passwords.json) (name : jsstring)
  : option Passwords.json :=
  match Passwords.get_property decrypted name with
  | Normal v => v
  | Throw _ => None
  end.

(** The entry shown for a stored document whose text was decrypted and
    parsed. *)
Definition entry_of (d : Passwords.EncryptedPasswordDoc) (decrypted : Passwords.json)
  : Passwords.PasswordEntry :=
  Passwords.mk_PasswordEntry (Passwords.doc_id d) (Passwords.doc_title d)
    (shown_field decrypted (js "username")) (shown_field decrypted (js "password"))
    (shown_field decrypted (js "url")) (shown_field decrypted (js "notes"))
    (default [] (Passwords.doc_tags d)) (Passwords.doc_createdAt d)
    (Passwords.doc_updatedAt d).

(** * Proofs *)

(** ** Bytes, code units and string equality *)

Lemma Z_of_byte_range (b : byte) : 0 <= Z_of_byte b < 256.
Proof.
  unfold Z_of_byte. pose proof (Byte.to_N_bounded b). lia.
Qed.

Lemma byte_of_Z_of_byte (b : byte) : byte_of_Z (Z_of_byte b) = b.
Proof.
  unfold byte_of_Z. pose proof (Z_of_byte_range b) as Hr.
  rewrite Z.mod_small by exact Hr.
  unfold Z_of_byte. rewrite N2Z.id, Byte.of_to_N. reflexivity.
Qed.

Lemma Z_of_byte_of_Z (z : Z) : 0 <= z < 256 -> Z_of_byte (byte_of_Z z) = z.
Proof.
  intros Hz. unfold byte_of_Z. rewrite Z.mod_small by exact Hz.
  destruct (Byte.of_N (Z.to_N z)) as [b|] eqn:E.
  - apply Byte.to_of_N in E. unfold Z_of_byte. rewrite E. lia.
  - apply Byte.of_N_None_iff in E. lia.
Qed.

Lemma map_byte_of_Z_of_byte (l : bytes) : List.map byte_of_Z (List.map Z_of_byte l) = l.
Proof.
  induction l as [|b l IH]; simpl; [reflexivity|].
  rewrite byte_of_Z_of_byte, IH. reflexivity.
Qed.

Lemma map_Z_of_byte_of_Z (l : list Z) :
  Forall (fun z => 0 <= z < 256) l -> List.map Z_of_byte (List.map byte_of_Z l) = l.
Proof.
  induction 1 as [|z l Hz _ IH]; simpl; [reflexivity|].
  rewrite Z_of_byte_of_Z by exact Hz. rewrite IH. reflexivity.
Qed.

Lemma str_eqb_eq (a b : jsstring) : str_eqb a b = true <-> a = b.
Proof.
  revert b. induction a as [|x a IH]; intros [|y b]; simpl; split; try congruence.
  - intros H. apply andb_true_iff in H as [Hxy Hab].
    apply Z.eqb_eq in Hxy. apply IH in Hab. congruence.
  - intros H. injection H as -> ->. rewrite Z.eqb_refl. simpl. apply IH. reflexivity.
Qed.

Lemma str_eqb_refl (a : jsstring) : str_eqb a a = true.
Proof. apply str_eqb_eq. reflexivity. Qed.

Lemma str_eqb_neq (a b : jsstring) : a <> b -> str_eqb a b = false.
Proof.
  intros H. destruct (str_eqb a b) eqn:E; [|reflexivity].
  apply str_eqb_eq in E. contradiction.
Qed.

(** Checking a boolean property on every number below [n] by computation. *)
Lemma forallb_below (n : nat) (p : Z -> bool) :
  forallb p (List.map Z.of_nat (List.seq 0 n)) = true ->
  forall z, 0 <= z < Z.of_nat n -> p z = true.
Proof.
  intros H z Hz. rewrite forallb_forall in H. apply H.
  apply in_map_iff. exists (Z.to_nat z). split; [lia|].
  apply in_seq. lia.
Qed.

(** Lists three elements at a time. *)
Lemma list_ind3 {A} (P : list A -> Prop) :
  P [] -> (forall a, P [a]) -> (forall a b, P [a; b]) ->
  (forall a b c l, P l -> P (a :: b :: c :: l)) ->
  forall l, P l.
Proof.
  intros H0 H1 H2 H3.
  assert (H : forall l, P l /\ (forall a, P (a :: l)) /\ (forall a b, P (a :: b :: l))).
  { induction l as [|x l (IH0 & IH1 & IH2)]; [auto|].
    split; [apply IH1|]. split; [intros a; apply IH2|].
    intros a b. apply H3. exact IH0. }
  intros l. apply H.
Qed.

(** ** Base64: decoding what was encoded *)

Lemma forallb_below2 (n m : nat) (p : Z -> Z -> bool) :
  forallb (fun a => forallb (p a) (List.map Z.of_nat (List.seq 0 m)))
          (List.map Z.of_nat (List.seq 0 n)) = true ->
  forall a b, 0 <= a < Z.of_nat n -> 0 <= b < Z.of_nat m -> p a b = true.
Proof.
  intros H a b Ha Hb.
  apply (forallb_below m (p a)); [|exact Hb].
  apply (forallb_below n (fun a => forallb (p a) (List.map Z.of_nat (List.seq 0 m)))); assumption.
Qed.

Lemma b64_value_char (v : Z) : is_sextet v -> b64_value (b64_char v) = Some v.
Proof.
  intros Hv.
  assert (H : (match b64_value (b64_char v) with Some w => w =? v | None => false end) = true).
  { apply (forallb_below 64 (fun v => match b64_value (b64_char v) with
                                      | Some w => w =? v | None => false end));
      [vm_compute; reflexivity | exact Hv]. }
  destruct (b64_value (b64_char v)); [|discriminate].
  apply Z.eqb_eq in H. congruence.
Qed.

Lemma b64_char_plain (v : Z) :
  is_sextet v -> b64_char v <> b64_pad /\ is_ascii_whitespace (b64_char v) = false.
Proof.
  intros Hv.
  assert (H : negb (b64_char v =? b64_pad) && negb (is_ascii_whitespace (b64_char v)) = true).
  { apply (forallb_below 64 (fun v => negb (b64_char v =? b64_pad)
                                      && negb (is_ascii_whitespace (b64_char v))));
      [vm_compute; reflexivity | exact Hv]. }
  apply andb_true_iff in H as [H1 H2].
  apply negb_true_iff in H1, H2. apply Z.eqb_neq in H1. auto.
Qed.

Lemma b64_values_chars (vs : list Z) :
  Forall is_sextet vs -> b64_values (List.map b64_char vs) = Some vs.
Proof.
  induction 1 as [|v vs Hv _ IH]; simpl; [reflexivity|].
  rewrite b64_value_char by exact Hv. rewrite IH. reflexivity.
Qed.

(** The bit identities behind one group, checked on all bytes. *)
Lemma group_sextets (a b : Z) :
  is_byte_value a -> is_byte_value b ->
  is_sextet (Z.shiftr a 2) /\
  is_sextet (Z.shiftl (Z.land a 3) 4) /\
  is_sextet (Z.lor (Z.shiftl (Z.land a 3) 4) (Z.shiftr b 4)) /\
  is_sextet (Z.shiftl (Z.land b 15) 2) /\
  is_sextet (Z.lor (Z.shiftl (Z.land a 15) 2) (Z.shiftr b 6)) /\
  is_sextet (Z.land b 63).
Proof.
  intros Ha Hb.
  pose (ok := fun z => (0 <=? z) && (z <? 64)).
  assert (H : ok (Z.shiftr a 2) && ok (Z.shiftl (Z.land a 3) 4)
              && ok (Z.lor (Z.shiftl (Z.land a 3) 4) (Z.shiftr b 4))
              && ok (Z.shiftl (Z.land b 15) 2)
              && ok (Z.lor (Z.shiftl (Z.land a 15) 2) (Z.shiftr b 6))
              && ok (Z.land b 63) = true).
  { apply (forallb_below2 256 256 (fun a b =>
             ok (Z.shiftr a 2) && ok (Z.shiftl (Z.land a 3) 4)
             && ok (Z.lor (Z.shiftl (Z.land a 3) 4) (Z.shiftr b 4))
             && ok (Z.shiftl (Z.land b 15) 2)
             && ok (Z.lor (Z.shiftl (Z.land a 15) 2) (Z.shiftr b 6))
             && ok (Z.land b 63)));
      [vm_compute; reflexivity | exact Ha | exact Hb]. }
  unfold ok, is_sextet in *.
  repeat (apply andb_true_iff in H as [H ?]). lia.
Qed.

(** An equation between bit expressions over one or two bytes, by checking
    every case. *)
Ltac check_bytes2 a b :=
  apply Z.eqb_eq;
  match goal with
  | |- ?g = true =>
      let p := eval pattern a, b in g in
      match p with
      | ?f a b =>
          apply (forallb_below2 256 256 f); [vm_compute; reflexivity | assumption | assumption]
      end
  end.

Ltac check_bytes1 a :=
  apply Z.eqb_eq;
  match goal with
  | |- ?g = true =>
      let p := eval pattern a in g in
      match p with
      | ?f a => apply (forallb_below 256 f); [vm_compute; reflexivity | assumption]
      end
  end.

Lemma group_byte1 (a b : Z) :
  is_byte_value a -> is_byte_value b ->
  Z.lor (Z.shiftl (Z.shiftr a 2) 2)
        (Z.shiftr (Z.lor (Z.shiftl (Z.land a 3) 4) (Z.shiftr b 4)) 4) = a.
Proof. intros Ha Hb. unfold is_byte_value in *. check_bytes2 a b. Qed.

Lemma group_byte1_tail (a : Z) :
  is_byte_value a ->
  Z.lor (Z.shiftl (Z.shiftr a 2) 2) (Z.shiftr (Z.shiftl (Z.land a 3) 4) 4) = a.
Proof. intros Ha. unfold is_byte_value in *. check_bytes1 a. Qed.

Lemma group_low4 (a b : Z) :
  is_byte_value a -> is_byte_value b ->
  Z.land (Z.lor (Z.shiftl (Z.land a 3) 4) (Z.shiftr b 4)) 15 = Z.shiftr b 4.
Proof. intros Ha Hb. unfold is_byte_value in *. check_bytes2 a b. Qed.

Lemma group_byte2 (b c : Z) :
  is_byte_value b -> is_byte_value c ->
  Z.lor (Z.shiftl (Z.shiftr b 4) 4)
        (Z.shiftr (Z.lor (Z.shiftl (Z.land b 15) 2) (Z.shiftr c 6)) 2) = b.
Proof. intros Hb Hc. unfold is_byte_value in *. check_bytes2 b c. Qed.

Lemma group_byte2_tail (b : Z) :
  is_byte_value b ->
  Z.lor (Z.shiftl (Z.shiftr b 4) 4) (Z.shiftr (Z.shiftl (Z.land b 15) 2) 2) = b.
Proof. intros Hb. unfold is_byte_value in *. check_bytes1 b. Qed.

Lemma group_byte3 (b c : Z) :
  is_byte_value b -> is_byte_value c ->
  Z.lor (Z.shiftl (Z.land (Z.lor (Z.shiftl (Z.land b 15) 2) (Z.shiftr c 6)) 3) 6)
        (Z.land c 63) = c.
Proof. intros Hb Hc. unfold is_byte_value in *. check_bytes2 b c. Qed.

Lemma b64_sextets_range (l : list Z) :
  Forall is_byte_value l -> Forall is_sextet (b64_sextets l).
Proof.
  induction l as [|a|a b|a b c l IH] using list_ind3; intros H.
  - constructor.
  - inversion H as [|? ? Ha _]; subst.
    destruct (group_sextets a a Ha Ha) as (? & ? & _).
    simpl. repeat (apply Forall_cons_2; [assumption|]). apply Forall_nil_2.
  - inversion H as [|? ? Ha H']; subst. inversion H' as [|? ? Hb _]; subst.
    destruct (group_sextets a b Ha Hb) as (? & _ & ? & ? & _).
    simpl. repeat (apply Forall_cons_2; [assumption|]). apply Forall_nil_2.
  - inversion H as [|? ? Ha H']; subst. inversion H' as [|? ? Hb H'']; subst.
    inversion H'' as [|? ? Hc Hl]; subst.
    destruct (group_sextets a b Ha Hb) as (? & _ & ? & _).
    destruct (group_sextets b c Hb Hc) as (_ & _ & _ & _ & ? & ?).
    simpl. repeat (apply Forall_cons_2; [assumption|]). apply IH, Hl.
Qed.

Lemma b64_decode_sextets (l : list Z) :
  Forall is_byte_value l -> b64_decode_values (b64_sextets l) = l.
Proof.
  induction l as [|a|a b|a b c l IH] using list_ind3; intros H.
  - reflexivity.
  - inversion H as [|? ? Ha _]; subst. simpl.
    rewrite group_byte1_tail by assumption. reflexivity.
  - inversion H as [|? ? Ha H']; subst. inversion H' as [|? ? Hb _]; subst.
    simpl. rewrite group_byte1, group_low4, group_byte2_tail by assumption.
    reflexivity.
  - inversion H as [|? ? Ha H']; subst. inversion H' as [|? ? Hb H'']; subst.
    inversion H'' as [|? ? Hc Hl]; subst.
    change (b64_sextets (a :: b :: c :: l)) with
      (Z.shiftr a 2
       :: Z.lor (Z.shiftl (Z.land a 3) 4) (Z.shiftr b 4)
       :: Z.lor (Z.shiftl (Z.land b 15) 2) (Z.shiftr c 6)
       :: Z.land c 63 :: b64_sextets l).
    cbn [b64_decode_values].
    rewrite group_byte1, group_low4, group_byte2, group_byte3 by assumption.
    rewrite IH by assumption. reflexivity.
Qed.

Lemma b64_shape (l : list Z) :
  let n := Z.of_nat (List.length (b64_sextets l)) in
  (b64_padding l = [] /\ n mod 4 = 0) \/
  (b64_padding l = [b64_pad] /\ n mod 4 = 3) \/
  (b64_padding l = [b64_pad; b64_pad] /\ n mod 4 = 2).
Proof.
  induction l as [|a|a b|a b c l IH] using list_ind3; cbn zeta.
  - left. split; reflexivity.
  - right. right. split; reflexivity.
  - right. left. split; reflexivity.
  - change (b64_padding (a :: b :: c :: l)) with (b64_padding l).
    change (List.length (b64_sextets (a :: b :: c :: l)))
      with (S (S (S (S (List.length (b64_sextets l)))))).
    cbn zeta in IH.
    replace (Z.of_nat (S (S (S (S (List.length (b64_sextets l)))))))
      with (Z.of_nat (List.length (b64_sextets l)) + 1 * 4) by lia.
    rewrite Z.mod_add by lia. exact IH.
Qed.

Lemma rev_swap {A} (l r : list A) : List.rev l = r -> List.rev r = l.
Proof. intros <-. apply List.rev_involutive. Qed.

Lemma remove_trailing_pad_app (body pad : jsstring) :
  Forall (fun c => c <> b64_pad) body ->
  pad = [] \/ pad = [b64_pad] \/ pad = [b64_pad; b64_pad] ->
  remove_trailing_pad (body ++ pad) = body.
Proof.
  intros Hbody Hpad. unfold remove_trailing_pad.
  assert (Hrev : Forall (fun c => c <> b64_pad) (List.rev body)).
  { apply List.Forall_rev. exact Hbody. }
  destruct Hpad as [-> | [-> | ->]]; rewrite List.rev_app_distr; simpl.
  - rewrite app_nil_r.
    destruct (List.rev body) as [|p [|q r]] eqn:E; [reflexivity| |];
      apply Forall_cons in Hrev as [Hp _]; apply Z.eqb_neq in Hp; rewrite Hp; reflexivity.
  - destruct (List.rev body) as [|q r] eqn:E.
    + apply rev_swap in E. exact E.
    + apply Forall_cons in Hrev as [Hq _]. apply Z.eqb_neq in Hq. rewrite Hq.
      apply (rev_swap body (q :: r)). exact E.
  - apply List.rev_involutive.
Qed.

Lemma b64_body_plain (l : list Z) :
  Forall is_byte_value l ->
  Forall (fun c => c <> b64_pad /\ is_ascii_whitespace c = false)
         (List.map b64_char (b64_sextets l)).
Proof.
  intros H. apply b64_sextets_range in H.
  induction H as [|v vs Hv _ IH]; simpl; [apply Forall_nil_2|].
  apply Forall_cons_2; [apply b64_char_plain, Hv | exact IH].
Qed.

Lemma filter_no_whitespace (l : jsstring) :
  Forall (fun c => is_ascii_whitespace c = false) l ->
  List.filter (fun c => negb (is_ascii_whitespace c)) l = l.
Proof.
  induction 1 as [|c l Hc _ IH]; simpl; [reflexivity|].
  rewrite Hc. simpl. rewrite IH. reflexivity.
Qed.

(** [atob] undoes the encoding of any byte sequence. *)
Lemma atob_b64_encode (l : list Z) :
  Forall is_byte_value l -> atob (b64_encode l) = Normal l.
Proof.
  intros H. unfold atob, b64_encode.
  pose proof (b64_body_plain l H) as Hplain.
  pose proof (b64_shape l) as Hshape. cbn zeta in Hshape.
  assert (Hpadws : Forall (fun c => is_ascii_whitespace c = false) (b64_padding l)).
  { destruct Hshape as [[-> _] | [[-> _] | [-> _]]];
      repeat (apply Forall_cons_2; [reflexivity|]); apply Forall_nil_2. }
  rewrite filter_no_whitespace.
  2:{ apply Forall_app_2; [|exact Hpadws].
      eapply Forall_impl; [exact Hplain|]. intros c [_ Hc]. exact Hc. }
  assert (Hlen : Z.of_nat (List.length (List.map b64_char (b64_sextets l) ++ b64_padding l)) mod 4 = 0).
  { rewrite List.length_app, List.length_map.
    destruct Hshape as [[-> Hm] | [[-> Hm] | [-> Hm]]]; simpl List.length;
      rewrite Nat2Z.inj_add; rewrite Z.add_mod by lia; rewrite Hm; reflexivity. }
  unfold strip_padding. rewrite Hlen. simpl (0 =? 0).
  rewrite remove_trailing_pad_app.
  2:{ eapply Forall_impl; [exact Hplain|]. intros c [Hc _]. exact Hc. }
  2:{ destruct Hshape as [[-> _] | [[-> _] | [-> _]]]; auto. }
  rewrite List.length_map.
  assert (Hne : (Z.of_nat (List.length (b64_sextets l)) mod 4 =? 1) = false).
  { apply Z.eqb_neq. destruct Hshape as [[_ Hm] | [[_ Hm] | [_ Hm]]]; rewrite Hm; lia. }
  rewrite Hne.
  rewrite b64_values_chars by (apply b64_sextets_range, H).
  rewrite b64_decode_sextets by exact H. reflexivity.
Qed.

Lemma binary_of_buffer (buffer : bytes) (acc : jsstring) :
  List.fold_left (fun binary b => binary ++ [fromCharCode (Z_of_byte b)]) buffer acc
  = acc ++ List.map Z_of_byte buffer.
Proof.
  revert acc. induction buffer as [|b buffer IH]; intros acc; simpl.
  - rewrite app_nil_r. reflexivity.
  - rewrite IH. unfold fromCharCode.
    pose proof (Z_of_byte_range b). rewrite Z.mod_small by lia.
    rewrite <- app_assoc. reflexivity.
Qed.

Lemma buffer_values_are_bytes (buffer : bytes) :
  Forall is_byte_value (List.map Z_of_byte buffer).
Proof.
  induction buffer as [|b buffer IH]; simpl; [apply Forall_nil_2|].
  apply Forall_cons_2; [apply Z_of_byte_range | exact IH].
Qed.

(** [arrayBufferToBase64] never throws: every code unit it hands to [btoa]
    is a byte. *)
Lemma arrayBufferToBase64_value (buffer : bytes) :
  arrayBufferToBase64 buffer = Normal (b64_encode (List.map Z_of_byte buffer)).
Proof.
  unfold arrayBufferToBase64, btoa. rewrite binary_of_buffer. simpl app.
  assert (H : forallb (in_range 0 255) (List.map Z_of_byte buffer) = true).
  { apply forallb_forall. intros z Hz. apply in_map_iff in Hz as (b & <- & _).
    pose proof (Z_of_byte_range b). unfold in_range. lia. }
  rewrite H. reflexivity.
Qed.

(** The two helpers of [crypto.ts] are inverse on buffers. *)
Lemma base64_roundtrip (buffer : bytes) (s : jsstring) :
  arrayBufferToBase64 buffer = Normal s -> base64ToArrayBuffer s = Normal buffer.
Proof.
  rewrite arrayBufferToBase64_value. intros [= <-].
  unfold base64ToArrayBuffer.
  rewrite atob_b64_encode by apply buffer_values_are_bytes.
  simpl. rewrite map_byte_of_Z_of_byte. reflexivity.
Qed.

(** C10.  For every byte sequence [b], [arrayBufferToBase64(b)] returns a
    string and [base64ToArrayBuffer] of that string returns a buffer equal to
    [b], byte for byte. *)
Theorem base64ToArrayBuffer_arrayBufferToBase64 (b : bytes) :
  (s ← arrayBufferToBase64 b; base64ToArrayBuffer s) = Normal b.
Proof.
  destruct (arrayBufferToBase64 b) as [s|e] eqn:E.
  - simpl. apply base64_roundtrip. exact E.
  - rewrite arrayBufferToBase64_value in E. discriminate E.
Qed.

(** The run: the bytes 0, 127, 128, 255 and their padded encoding. *)
Lemma base64_run :
  arrayBufferToBase64 [x00; x7f; x80; xff] = Normal (js "AH+A/w==") /\
  base64ToArrayBuffer (js "AH+A/w==") = Normal [x00; x7f; x80; xff] /\
  base64ToArrayBuffer (js "AH+A/w=") = Throw InvalidCharacterError.
Proof. vm_compute. auto. Qed.

(** ** UTF-8: decoding what was encoded *)

(** Bit operations on the ranges used here, as arithmetic. *)
Lemma land_shiftl_small (a y n : Z) :
  0 <= n -> 0 <= y < 2 ^ n -> Z.land (Z.shiftl a n) y = 0.
Proof.
  intros Hn Hy. apply Z.bits_inj'. intros i Hi.
  rewrite Z.land_spec, Z.bits_0.
  destruct (Z_lt_ge_dec i n) as [Hlt | Hge].
  - rewrite Z.shiftl_spec_low by exact Hlt. reflexivity.
  - rewrite <- (Z.mod_small y (2 ^ n)) by exact Hy.
    rewrite Z.mod_pow2_bits_high by lia. apply andb_false_r.
Qed.

Lemma lor_shiftl_small (a y n : Z) :
  0 <= n -> 0 <= y < 2 ^ n -> Z.lor (Z.shiftl a n) y = a * 2 ^ n + y.
Proof.
  intros Hn Hy.
  pose proof (Z.add_lor_land (Z.shiftl a n) y) as H.
  rewrite land_shiftl_small in H by assumption.
  rewrite <- (Z.shiftl_mul_pow2 a n) by exact Hn. lia.
Qed.

Lemma mark_continuation (y : Z) : 0 <= y < 64 -> Z.lor 0x80 y = 0x80 + y.
Proof.
  intros Hy. change 0x80 with (Z.shiftl 2 6) at 1.
  rewrite lor_shiftl_small by lia. reflexivity.
Qed.

Lemma low_six (a : Z) : Z.land a 0x3F = a mod 64.
Proof. change 0x3F with (Z.ones 6). apply Z.land_ones. lia. Qed.

Lemma shiftr_6 (a : Z) : Z.shiftr a 6 = a / 64.
Proof. rewrite Z.shiftr_div_pow2 by lia. reflexivity. Qed.

Lemma shiftr_12 (a : Z) : Z.shiftr a 12 = a / 4096.
Proof. rewrite Z.shiftr_div_pow2 by lia. reflexivity. Qed.

Lemma shiftr_18 (a : Z) : Z.shiftr a 18 = a / 262144.
Proof. rewrite Z.shiftr_div_pow2 by lia. reflexivity. Qed.

Ltac arith := Z.div_mod_to_equations; lia.

(** The encoder, one case per length. *)
Lemma encode_1 (cp : Z) : 0 <= cp <= 0x7F -> utf8_encode_scalar cp = [cp].
Proof.
  intros H. unfold utf8_encode_scalar.
  assert (E : (cp <=? 0x7F) = true) by lia. rewrite E. reflexivity.
Qed.

Lemma encode_2 (cp : Z) :
  0x80 <= cp <= 0x7FF ->
  utf8_encode_scalar cp = [cp / 64 + 0xC0; 0x80 + cp mod 64].
Proof.
  intros H. unfold utf8_encode_scalar.
  assert (E1 : (cp <=? 0x7F) = false) by lia.
  assert (E2 : (cp <=? 0x7FF) = true) by lia.
  rewrite E1, E2, low_six.
  rewrite shiftr_6.
  rewrite mark_continuation by arith. reflexivity.
Qed.

Lemma encode_3 (cp : Z) :
  0x800 <= cp <= 0xFFFF ->
  utf8_encode_scalar cp =
  [cp / 4096 + 0xE0; 0x80 + (cp / 64) mod 64; 0x80 + cp mod 64].
Proof.
  intros H. unfold utf8_encode_scalar.
  assert (E1 : (cp <=? 0x7F) = false) by lia.
  assert (E2 : (cp <=? 0x7FF) = false) by lia.
  assert (E3 : (cp <=? 0xFFFF) = true) by lia.
  rewrite E1, E2, E3, !low_six.
  rewrite shiftr_12, shiftr_6.
  rewrite !mark_continuation by arith. reflexivity.
Qed.

Lemma encode_4 (cp : Z) :
  0x10000 <= cp ->
  utf8_encode_scalar cp =
  [cp / 262144 + 0xF0; 0x80 + (cp / 4096) mod 64; 0x80 + (cp / 64) mod 64;
   0x80 + cp mod 64].
Proof.
  intros H. unfold utf8_encode_scalar.
  assert (E1 : (cp <=? 0x7F) = false) by lia.
  assert (E2 : (cp <=? 0x7FF) = false) by lia.
  assert (E3 : (cp <=? 0xFFFF) = false) by lia.
  rewrite E1, E2, E3, !low_six.
  rewrite shiftr_18, shiftr_12, shiftr_6.
  rewrite !mark_continuation by arith. reflexivity.
Qed.

(** The decoder on a first byte, one case per length. *)
Lemma step_ascii (b : Z) : 0 <= b <= 0x7F -> utf8_step utf8_init b = ([b], utf8_init).
Proof.
  intros H. unfold utf8_step, utf8_lead, in_range. simpl.
  assert (E : (0 <=? b) && (b <=? 127) = true) by lia. rewrite E. reflexivity.
Qed.

Lemma step_lead2 (x : Z) :
  2 <= x < 32 ->
  utf8_step utf8_init (x + 0xC0) = ([], mk_utf8_state x 0 1 0x80 0xBF).
Proof.
  intros H. unfold utf8_step, utf8_lead, in_range. simpl bytes_needed. simpl (0 =? 0).
  assert (E1 : (0 <=? x + 0xC0) && (x + 0xC0 <=? 0x7F) = false) by lia.
  assert (E2 : (0xC2 <=? x + 0xC0) && (x + 0xC0 <=? 0xDF) = true) by lia.
  rewrite E1, E2. change 0x1F with (Z.ones 5). rewrite Z.land_ones by lia.
  change (2 ^ 5) with 32. replace ((x + 0xC0) mod 32) with x by arith. reflexivity.
Qed.

Lemma step_lead3 (x : Z) :
  0 <= x < 16 ->
  utf8_step utf8_init (x + 0xE0) =
  ([], mk_utf8_state x 0 2 (if x =? 0 then 0xA0 else 0x80) (if x =? 0xD then 0x9F else 0xBF)).
Proof.
  intros H. unfold utf8_step, utf8_lead, in_range. simpl bytes_needed. simpl (0 =? 0).
  assert (E1 : (0 <=? x + 0xE0) && (x + 0xE0 <=? 0x7F) = false) by lia.
  assert (E2 : (0xC2 <=? x + 0xE0) && (x + 0xE0 <=? 0xDF) = false) by lia.
  assert (E3 : (0xE0 <=? x + 0xE0) && (x + 0xE0 <=? 0xEF) = true) by lia.
  rewrite E1, E2, E3. change 0xF with (Z.ones 4). rewrite Z.land_ones by lia.
  change (2 ^ 4) with 16. replace ((x + 0xE0) mod 16) with x by arith.
  replace (x + 0xE0 =? 0xE0) with (x =? 0) by lia.
  replace (x + 0xE0 =? 0xED) with (x =? 0xD) by lia. reflexivity.
Qed.

Lemma step_lead4 (x : Z) :
  0 <= x < 5 ->
  utf8_step utf8_init (x + 0xF0) =
  ([], mk_utf8_state x 0 3 (if x =? 0 then 0x90 else 0x80) (if x =? 4 then 0x8F else 0xBF)).
Proof.
  intros H. unfold utf8_step, utf8_lead, in_range. simpl bytes_needed. simpl (0 =? 0).
  assert (E1 : (0 <=? x + 0xF0) && (x + 0xF0 <=? 0x7F) = false) by lia.
  assert (E2 : (0xC2 <=? x + 0xF0) && (x + 0xF0 <=? 0xDF) = false) by lia.
  assert (E3 : (0xE0 <=? x + 0xF0) && (x + 0xF0 <=? 0xEF) = false) by lia.
  assert (E4 : (0xF0 <=? x + 0xF0) && (x + 0xF0 <=? 0xF4) = true) by lia.
  rewrite E1, E2, E3, E4. change 0x7 with (Z.ones 3). rewrite Z.land_ones by lia.
  change (2 ^ 3) with 8. replace ((x + 0xF0) mod 8) with x by arith.
  replace (x + 0xF0 =? 0xF0) with (x =? 0) by lia.
  replace (x + 0xF0 =? 0xF4) with (x =? 4) by lia. reflexivity.
Qed.

(** The decoder on an expected continuation byte. *)
Lemma step_continuation (st : utf8_state) (y : Z) :
  bytes_needed st <> 0 -> 0 <= y < 64 ->
  lower_boundary st <= 0x80 + y <= upper_boundary st ->
  utf8_step st (0x80 + y) =
  if bytes_seen st + 1 =? bytes_needed st
  then ([code_point st * 64 + y], utf8_init)
  else ([], mk_utf8_state (code_point st * 64 + y) (bytes_seen st + 1)
              (bytes_needed st) 0x80 0xBF).
Proof.
  intros Hn Hy Hr. unfold utf8_step, in_range.
  assert (E1 : (bytes_needed st =? 0) = false) by lia.
  assert (E2 : (lower_boundary st <=? 0x80 + y) && (0x80 + y <=? upper_boundary st) = true)
    by lia.
  rewrite E1, E2. cbn [negb]. cbv zeta.
  rewrite low_six. replace ((0x80 + y) mod 64) with y by arith.
  rewrite lor_shiftl_small by lia. reflexivity.
Qed.

Ltac continuation :=
  rewrite step_continuation;
  [ cbn [bytes_seen bytes_needed code_point lower_boundary upper_boundary];
    try change (0 + 1 =? 2) with false; try change (0 + 1 =? 3) with false;
    try change (0 + 1 + 1 =? 3) with false; try change (0 + 1 =? 1) with true;
    try change (0 + 1 + 1 =? 2) with true; try change (0 + 1 + 1 + 1 =? 3) with true;
    cbv iota
  | cbn [bytes_needed]; lia
  | arith
  | cbn [lower_boundary upper_boundary];
    repeat match goal with
           | |- context [?a =? ?b] => destruct (Z.eqb_spec a b)
           end; arith ].

(** The encoding of a scalar value consists of bytes and decodes to that
    value, leaving the decoder in its initial state. *)
Lemma scalar_roundtrip (cp : Z) :
  is_scalar cp = true ->
  Forall is_byte_value (utf8_encode_scalar cp) /\
  utf8_feed utf8_init (utf8_encode_scalar cp) = ([cp], utf8_init).
Proof.
  intros Hs. unfold is_scalar in Hs. unfold is_byte_value.
  destruct (Z_le_gt_dec cp 0x7F) as [H1 | H1];
    [|destruct (Z_le_gt_dec cp 0x7FF) as [H2 | H2];
      [|destruct (Z_le_gt_dec cp 0xFFFF) as [H3 | H3]]].
  - rewrite encode_1 by lia. split.
    + repeat (apply Forall_cons_2; [lia|]). apply Forall_nil_2.
    + cbn [utf8_feed]. rewrite step_ascii by lia. reflexivity.
  - rewrite encode_2 by lia. split.
    + repeat (apply Forall_cons_2; [arith|]). apply Forall_nil_2.
    + cbn [utf8_feed]. rewrite step_lead2 by arith. continuation.
      cbn [app]. f_equal. f_equal. arith.
  - rewrite encode_3 by lia. split.
    + repeat (apply Forall_cons_2; [arith|]). apply Forall_nil_2.
    + cbn [utf8_feed]. rewrite step_lead3 by arith. continuation. continuation.
      cbn [app]. f_equal. f_equal. arith.
  - rewrite encode_4 by lia. split.
    + repeat (apply Forall_cons_2; [arith|]). apply Forall_nil_2.
    + cbn [utf8_feed]. rewrite step_lead4 by arith. continuation. continuation.
      continuation. cbn [app]. f_equal. f_equal. arith.
Qed.

Lemma utf8_run_app (st : utf8_state) (l r : list Z) :
  utf8_run st (l ++ r) = (utf8_feed st l).1 ++ utf8_run (utf8_feed st l).2 r.
Proof.
  revert st. induction l as [|b l IH]; intros st; simpl; [reflexivity|].
  destruct (utf8_step st b) as [out st'].
  rewrite IH. destruct (utf8_feed st' l) as [out' st'']. simpl.
  rewrite app_assoc. reflexivity.
Qed.

Lemma utf8_decode_encode (l : list Z) :
  Forall (fun cp => is_scalar cp = true) l -> utf8_decode (utf8_encode l) = l.
Proof.
  unfold utf8_decode, utf8_encode.
  induction 1 as [|cp l Hcp _ IH]; simpl; [reflexivity|].
  rewrite utf8_run_app.
  destruct (scalar_roundtrip cp Hcp) as [_ ->]. simpl. rewrite IH. reflexivity.
Qed.

Lemma utf8_encode_bytes (l : list Z) :
  Forall (fun cp => is_scalar cp = true) l -> Forall is_byte_value (utf8_encode l).
Proof.
  unfold utf8_encode.
  induction 1 as [|cp l Hcp _ IH]; simpl; [apply Forall_nil_2|].
  apply Forall_app_2; [apply (scalar_roundtrip cp Hcp) | exact IH].
Qed.

(** ** UTF-16: scalar values of a string and back *)

(** Two code units at a time, as [to_scalars] and [isWellFormed] read them. *)
Lemma list_ind2 {A} (P : list A -> Prop) :
  P [] -> (forall a, P [a]) -> (forall a b l, P l -> P (b :: l) -> P (a :: b :: l)) ->
  forall l, P l.
Proof.
  intros H0 H1 H2.
  assert (H : forall l, P l /\ forall a, P (a :: l)).
  { induction l as [|x l (IH0 & IH1)]; [auto|].
    split; [apply IH1|]. intros a. apply H2; [exact IH0 | apply IH1]. }
  intros l. apply H.
Qed.

(** Every string of 16-bit code units has scalar values only: unpaired
    surrogates were replaced. *)
Lemma to_scalars_scalar (s : jsstring) :
  Forall (fun u => is_code_unit u = true) s ->
  Forall (fun cp => is_scalar cp = true) (to_scalars s).
Proof.
  induction s as [|a|a b l IH0 IH1] using list_ind2; intros H.
  - apply Forall_nil_2.
  - apply Forall_cons in H as [Ha _]. simpl.
    unfold is_lead, is_trail, is_code_unit, is_scalar in *.
    destruct ((0xD800 <=? a) && (a <=? 0xDBFF)) eqn:E1;
      [|destruct ((0xDC00 <=? a) && (a <=? 0xDFFF)) eqn:E2];
      (apply Forall_cons_2; [lia | apply Forall_nil_2]).
  - apply Forall_cons in H as [Ha H]. pose proof H as Hbl.
    apply Forall_cons in H as [Hb Hl].
    specialize (IH0 Hl). specialize (IH1 Hbl).
    cbn [to_scalars]. cbn [to_scalars] in IH1.
    destruct (is_lead a) eqn:E1.
    + destruct (is_trail b) eqn:E2.
      * apply Forall_cons_2; [|exact IH0].
        unfold is_lead, is_trail, is_scalar in *. lia.
      * apply Forall_cons_2; [reflexivity | exact IH1].
    + destruct (is_trail a) eqn:E3.
      * apply Forall_cons_2; [reflexivity | exact IH1].
      * apply Forall_cons_2; [|exact IH1].
        unfold is_lead, is_trail, is_code_unit, is_scalar in *. lia.
Qed.

Lemma surrogate_pair (c d : Z) :
  is_lead c = true -> is_trail d = true ->
  code_units_of (0x10000 + (c - 0xD800) * 0x400 + (d - 0xDC00)) = [c; d].
Proof.
  unfold is_lead, is_trail, code_units_of. intros Hc Hd.
  assert (Hge : (0x10000 + (c - 0xD800) * 0x400 + (d - 0xDC00) <? 0x10000) = false) by lia.
  rewrite Hge.
  replace (0x10000 + (c - 0xD800) * 0x400 + (d - 0xDC00) - 0x10000)
    with ((d - 0xDC00) + (c - 0xD800) * 2 ^ 10) by lia.
  rewrite Z.shiftr_div_pow2 by lia.
  change 0x3FF with (Z.ones 10). rewrite Z.land_ones by lia.
  rewrite Z.div_add by lia. rewrite Z.mod_add by lia.
  rewrite Z.div_small by lia. rewrite Z.mod_small by lia.
  f_equal; [lia | f_equal; lia].
Qed.

Lemma to_scalars_cons2 (a b : Z) (l : jsstring) :
  to_scalars (a :: b :: l) =
  if is_lead a then
    if is_trail b
    then (0x10000 + (a - 0xD800) * 0x400 + (b - 0xDC00)) :: to_scalars l
    else 0xFFFD :: to_scalars (b :: l)
  else if is_trail a then 0xFFFD :: to_scalars (b :: l)
  else a :: to_scalars (b :: l).
Proof. reflexivity. Qed.

(** A well-formed string is the UTF-16 form of its scalar values. *)
Lemma of_scalars_to_scalars (s : jsstring) :
  isWellFormed s = true -> of_scalars (to_scalars s) = s.
Proof.
  unfold of_scalars.
  induction s as [|a|a b l IH0 IH1] using list_ind2; intros H.
  - reflexivity.
  - simpl in *. destruct (is_lead a) eqn:E1; [rewrite andb_false_r in H; discriminate|].
    destruct (is_trail a) eqn:E2; [rewrite andb_false_r in H; discriminate|].
    simpl. unfold code_units_of.
    assert (Hlt : (a <? 0x10000) = true) by (unfold is_code_unit in H; lia).
    rewrite Hlt. reflexivity.
  - cbn [isWellFormed] in H. rewrite to_scalars_cons2.
    apply andb_true_iff in H as [Ha H].
    destruct (is_lead a) eqn:E1.
    + apply andb_true_iff in H as [Hb Hl]. rewrite Hb.
      cbn [List.map List.concat]. rewrite surrogate_pair by assumption.
      rewrite IH0 by exact Hl. reflexivity.
    + apply andb_true_iff in H as [Hna Hbl]. apply negb_true_iff in Hna. rewrite Hna.
      cbn [List.map List.concat]. rewrite IH1 by exact Hbl.
      unfold code_units_of.
      assert (Hlt : (a <? 0x10000) = true) by (unfold is_code_unit in Ha; lia).
      rewrite Hlt. reflexivity.
Qed.

Lemma isWellFormed_code_units (s : jsstring) :
  isWellFormed s = true -> Forall (fun u => is_code_unit u = true) s.
Proof.
  induction s as [|a|a b l IH0 IH1] using list_ind2; intros H.
  - apply Forall_nil_2.
  - simpl in H. apply andb_true_iff in H as [Ha _].
    apply Forall_cons_2; [exact Ha | apply Forall_nil_2].
  - cbn [isWellFormed] in H. apply andb_true_iff in H as [Ha H].
    apply Forall_cons_2; [exact Ha|].
    destruct (is_lead a).
    + apply andb_true_iff in H as [Hb Hl].
      apply Forall_cons_2; [|apply IH0, Hl].
      unfold is_trail, is_code_unit in *. lia.
    + apply andb_true_iff in H as [_ Hbl]. apply IH1, Hbl.
Qed.

Lemma strip_bom_to_scalars (s : jsstring) :
  isWellFormed s = true -> starts_with_bom s = false ->
  strip_bom (to_scalars s) = to_scalars s.
Proof.
  destruct s as [|a s]; intros Hw Hb; [reflexivity|].
  cbn [isWellFormed] in Hw. apply andb_true_iff in Hw as [Ha Hw].
  simpl in Hb. cbn [to_scalars].
  destruct (is_lead a) eqn:E1.
  - destruct s as [|b s]; [discriminate|].
    apply andb_true_iff in Hw as [Hb' _]. rewrite Hb'. unfold strip_bom.
    assert (Hne : (0x10000 + (a - 0xD800) * 0x400 + (b - 0xDC00) =? 0xFEFF) = false)
      by (unfold is_lead, is_trail in *; lia).
    rewrite Hne. reflexivity.
  - apply andb_true_iff in Hw as [Hna _]. apply negb_true_iff in Hna. rewrite Hna.
    unfold strip_bom. rewrite Hb. reflexivity.
Qed.

(** What decoding an encoded string gives, for every string: its scalar
    values (unpaired surrogates replaced by U+FFFD) without a leading
    U+FEFF. *)
Lemma TextDecoder_decode_encode (s : jsstring) :
  Forall (fun u => is_code_unit u = true) s ->
  TextDecoder_decode (TextEncoder_encode s) = of_scalars (strip_bom (to_scalars s)).
Proof.
  intros H. unfold TextDecoder_decode, TextEncoder_encode.
  pose proof (to_scalars_scalar s H) as Hs.
  rewrite map_Z_of_byte_of_Z by (apply utf8_encode_bytes, Hs).
  rewrite utf8_decode_encode by exact Hs. reflexivity.
Qed.

(** Text survives encoding and decoding when it is well formed and does not
    begin with U+FEFF. *)
Lemma text_roundtrip (s : jsstring) :
  isWellFormed s = true -> starts_with_bom s = false ->
  TextDecoder_decode (TextEncoder_encode s) = s.
Proof.
  intros Hw Hb.
  rewrite TextDecoder_decode_encode by (apply isWellFormed_code_units, Hw).
  rewrite strip_bom_to_scalars by assumption.
  apply of_scalars_to_scalars, Hw.
Qed.

(** ** [crypto.ts]: envelope encryption and the password verifier *)

Section CryptoFacts.
Context `{WC : WebCrypto}.

(** What [decryptData] returns on the output of [encryptData], for every
    string of 16-bit code units. *)
Lemma decryptData_encryptData_value (P : jsstring) (K : CryptoKey)
    (rnd : nat -> byte) (c : EncryptedData) :
  Forall (fun u => is_code_unit u = true) P ->
  encryptData P K rnd = Normal c ->
  decryptData (ciphertext c) (iv c) K = Normal (of_scalars (strip_bom (to_scalars P))).
Proof.
  intros HP. unfold encryptData, decryptData.
  destruct (aes_gcm_encrypt K (generateIV rnd) (TextEncoder_encode P)) as [sealed|e] eqn:E;
    [|discriminate].
  simpl.
  destruct (arrayBufferToBase64 sealed) as [c64|e] eqn:Ec; [|discriminate].
  destruct (arrayBufferToBase64 (generateIV rnd)) as [i64|e] eqn:Ei; [|discriminate].
  simpl. intros [= <-]. simpl.
  rewrite (base64_roundtrip _ _ Ec). simpl.
  rewrite (base64_roundtrip _ _ Ei). simpl.
  rewrite (aes_gcm_open_sealed _ _ _ _ E). simpl.
  rewrite TextDecoder_decode_encode by exact HP. reflexivity.
Qed.

(** [encryptData] returns whenever the cipher does. *)
Lemma encryptData_returns (P : jsstring) (K : CryptoKey) (rnd : nat -> byte)
    (sealed : bytes) :
  aes_gcm_encrypt K (generateIV rnd) (TextEncoder_encode P) = Normal sealed ->
  encryptData P K rnd =
    Normal (mk_EncryptedData (b64_encode (List.map Z_of_byte sealed))
                             (b64_encode (List.map Z_of_byte (generateIV rnd)))).
Proof.
  intros E. unfold encryptData. rewrite E. simpl.
  rewrite !arrayBufferToBase64_value. reflexivity.
Qed.

Lemma VERIFY_text : TextDecoder_decode (TextEncoder_encode VERIFY) = VERIFY.
Proof. vm_compute. reflexivity. Qed.

(** [verifyMasterPassword] answers [true] exactly when every step of the
    [try] block went through and the decoded text is the marker. *)
Lemma verifyMasterPassword_true_iff (password : jsstring) (salt : bytes)
    (storedVerifier : jsstring) :
  verifyMasterPassword password salt storedVerifier = Normal true <->
  exists key data plain,
    deriveKey password salt = Normal key /\
    base64ToArrayBuffer storedVerifier = Normal data /\
    aes_gcm_decrypt key zero_iv data = Normal plain /\
    TextDecoder_decode plain = VERIFY.
Proof.
  unfold verifyMasterPassword. split.
  - destruct (deriveKey password salt) as [key|] eqn:Ek; simpl; [|discriminate].
    destruct (base64ToArrayBuffer storedVerifier) as [data|] eqn:Ed; simpl; [|discriminate].
    destruct (aes_gcm_decrypt key zero_iv data) as [plain|] eqn:Ep; simpl; [|discriminate].
    intros [= H]. apply str_eqb_eq in H. eauto 10.
  - intros (key & data & plain & -> & -> & Hp & Ht). simpl. rewrite Hp. simpl.
    rewrite Ht, str_eqb_refl. reflexivity.
Qed.

Lemma verifyMasterPassword_total (password : jsstring) (salt : bytes)
    (storedVerifier : jsstring) :
  exists b, verifyMasterPassword password salt storedVerifier = Normal b.
Proof.
  unfold verifyMasterPassword.
  destruct (deriveKey password salt) as [key|]; simpl; [|eauto].
  destruct (base64ToArrayBuffer storedVerifier) as [data|]; simpl; [|eauto].
  destruct (aes_gcm_decrypt key zero_iv data) as [plain|]; simpl; eauto.
Qed.
End CryptoFacts.

(** C1, as amended.  For every well-formed plaintext string [P] (no unpaired
    surrogate) that does not begin with U+FEFF and every key [K]: if
    [encryptData(P, K)] returns [c], then
    [decryptData(c.ciphertext, c.iv, K)] returns exactly [P]. *)
Theorem encryptData_decryptData_roundtrip `{WC : WebCrypto}
    (P : jsstring) (K : CryptoKey) (rnd : nat -> byte) (c : EncryptedData) :
  isWellFormed P = true ->
  starts_with_bom P = false ->
  encryptData P K rnd = Normal c ->
  decryptData (ciphertext c) (iv c) K = Normal P.
Proof.
  intros Hw Hb Hc.
  rewrite (decryptData_encryptData_value P K rnd c (isWellFormed_code_units P Hw) Hc).
  rewrite strip_bom_to_scalars by assumption.
  rewrite of_scalars_to_scalars by exact Hw. reflexivity.
Qed.

Lemma encryptData_decryptData_roundtrip_witness :
  exists c,
    @encryptData demo_crypto (js "vault-secret") demo_key demo_rnd = Normal c /\
    @decryptData demo_crypto (ciphertext c) (iv c) demo_key = Normal (js "vault-secret").
Proof.
  eexists. split; [vm_compute; reflexivity|].
  apply (@encryptData_decryptData_roundtrip demo_crypto (js "vault-secret") demo_key demo_rnd);
    vm_compute; reflexivity.
Defined.

(** C1, as stated, fails: the one-code-unit string U+FEFF is encrypted, and
    decrypting the result returns the empty string.  Hence the round trip
    does not hold for every string, key and cipher. *)
Lemma roundtrip_fails_on_leading_bom :
  ~ (forall (WC : WebCrypto) (P : jsstring) (K : CryptoKey) (rnd : nat -> byte)
            (c : EncryptedData),
       Forall (fun u => is_code_unit u = true) P ->
       encryptData P K rnd = Normal c ->
       decryptData (ciphertext c) (iv c) K = Normal P).
Proof.
  intros H.
  specialize (H demo_crypto [0xFEFF] demo_key demo_rnd).
  destruct (@encryptData demo_crypto [0xFEFF] demo_key demo_rnd) as [c|e] eqn:E;
    vm_compute in E; [|discriminate E].
  injection E as <-.
  specialize (H _ ltac:(repeat constructor) eq_refl).
  vm_compute in H. discriminate H.
Qed.

(** Whatever the cipher and the key: a lone U+FEFF is lost. *)
Lemma leading_bom_is_lost `{WC : WebCrypto}
    (K : CryptoKey) (rnd : nat -> byte) (c : EncryptedData) :
  encryptData [0xFEFF] K rnd = Normal c ->
  decryptData (ciphertext c) (iv c) K = Normal [].
Proof.
  intros Hc.
  rewrite (decryptData_encryptData_value [0xFEFF] K rnd c); [reflexivity | | exact Hc].
  apply Forall_cons_2; [reflexivity | apply Forall_nil_2].
Qed.

(** The other strings that do not survive: an unpaired surrogate comes back
    as U+FFFD. *)
Lemma roundtrip_replaces_unpaired_surrogate :
  (c ← @encryptData demo_crypto [0xD800] demo_key demo_rnd;
   @decryptData demo_crypto (ciphertext c) (iv c) demo_key) = Normal [0xFFFD].
Proof. vm_compute. reflexivity. Qed.

(** C2.  For every password and every salt (the sixteen bytes of a
    registration included): a verifier returned by
    [generateVerifier(password, salt)] makes
    [verifyMasterPassword(password, salt, verifier)] return [true]. *)
Theorem verifier_validates_same_password `{WC : WebCrypto}
    (password : jsstring) (salt : bytes) (v : jsstring) :
  generateVerifier password salt = Normal v ->
  verifyMasterPassword password salt v = Normal true.
Proof.
  unfold generateVerifier. intros Hg.
  destruct (deriveKey password salt) as [key|e] eqn:Ek; [|discriminate].
  simpl in Hg.
  destruct (aes_gcm_encrypt key zero_iv (TextEncoder_encode VERIFY)) as [sealed|e] eqn:Es;
    [|discriminate].
  simpl in Hg.
  apply verifyMasterPassword_true_iff.
  exists key, sealed, (TextEncoder_encode VERIFY).
  split; [|split; [|split]].
  - exact Ek.
  - apply base64_roundtrip. exact Hg.
  - apply aes_gcm_open_sealed. exact Es.
  - apply VERIFY_text.
Qed.

Lemma verifier_validates_same_password_witness :
  exists v,
    @generateVerifier demo_crypto (js "CorrectHorse1234!") (generateSalt demo_rnd) = Normal v /\
    @verifyMasterPassword demo_crypto (js "CorrectHorse1234!") (generateSalt demo_rnd) v
    = Normal true.
Proof.
  eexists. split; [vm_compute; reflexivity|].
  apply (@verifier_validates_same_password demo_crypto).
  vm_compute. reflexivity.
Defined.

(** C3.  For every password, salt and stored verifier,
    [verifyMasterPassword] returns a boolean and never throws; the boolean
    is [true] only when the key was derived, the stored verifier decoded,
    the AEAD open succeeded and the decoded plaintext is exactly the marker
    ["VERIFY"]; in every other case it is [false]. *)
Theorem verifyMasterPassword_never_throws `{WC : WebCrypto}
    (password : jsstring) (salt : bytes) (storedVerifier : jsstring) :
  exists b : bool,
    verifyMasterPassword password salt storedVerifier = Normal b /\
    (b = true <->
     exists key data plain,
       deriveKey password salt = Normal key /\
       base64ToArrayBuffer storedVerifier = Normal data /\
       aes_gcm_decrypt key zero_iv data = Normal plain /\
       TextDecoder_decode plain = VERIFY).
Proof.
  destruct (verifyMasterPassword_total password salt storedVerifier) as [b Hb].
  exists b. split; [exact Hb|].
  rewrite <- verifyMasterPassword_true_iff, Hb. split; congruence.
Qed.

(** ** [AuthProvider]: lock, unlock and the identity callback *)

(** Unfolds the sequencing of actions. *)
Ltac run_action :=
  unfold mbind, mret, action_bind, action_ret, act_bind, act_ret, act_try, lift, modify,
    setUser, setLoading, setEncryptionKey, setIsUnlocked, console_error, getDoc, setDoc
    in *;
  simpl in *.

Section SessionFacts.
Context `{WC : WebCrypto}.

Lemma same_session_refl (s : Session) : same_session s s.
Proof. unfold same_session. auto. Qed.

(** A failing unlock attempt returns [false] and writes nothing but,
    possibly, a console line. *)
Lemma unlockVault_failure (B : Backend) (masterPassword : jsstring) (s : Session) :
  unlock_failure B masterPassword s ->
  exists s', unlockVault B masterPassword s = (Normal false, s') /\ same_session s s'.
Proof.
  intros [Hu | u Hu Hr | u Hu Hr Hp | u p Hu Hr Hp He | u p enc e Hu Hr Hp He Hs
          | u p enc saltBuffer Hu Hr Hp He Hs Hv];
    unfold unlockVault; rewrite Hu.
  - exists s. split; [reflexivity | apply same_session_refl].
  - run_action. rewrite Hr. simpl. eexists. split; [reflexivity|].
    unfold same_session. simpl. auto.
  - run_action. rewrite Hr, Hp. simpl. eexists. split; [reflexivity|].
    apply same_session_refl.
  - run_action. rewrite Hr, Hp. simpl. rewrite He. simpl. eexists. split; [reflexivity|].
    unfold same_session. simpl. auto.
  - run_action. rewrite Hr, Hp. simpl. rewrite He. simpl. rewrite Hs. simpl.
    eexists. split; [reflexivity|]. unfold same_session. simpl. auto.
  - run_action. rewrite Hr, Hp. simpl. rewrite He. simpl. rewrite Hs. simpl.
    rewrite Hv. simpl. eexists. split; [reflexivity|]. apply same_session_refl.
Qed.

(** [unlockVault] never throws; it answers [true] only after writing the
    key, and [false] only for one of the failures above. *)
Lemma unlockVault_total (B : Backend) (masterPassword : jsstring) (s : Session) :
  exists (b : bool) (s' : Session),
    unlockVault B masterPassword s = (Normal b, s') /\
    (b = true -> is_Some (encryptionKey s') /\ isUnlocked s' = true) /\
    (b = false -> unlock_failure B masterPassword s /\ same_session s s').
Proof.
  destruct (user s) as [u|] eqn:Hu.
  2:{ exists false, s. unfold unlockVault. rewrite Hu.
      split; [reflexivity|]. split; [discriminate|].
      intros _. split; [apply no_user, Hu | apply same_session_refl]. }
  assert (Hfail : unlock_failure B masterPassword s ->
                  exists (b : bool) (s' : Session),
                    unlockVault B masterPassword s = (Normal b, s') /\
                    (b = true -> is_Some (encryptionKey s') /\ isUnlocked s' = true) /\
                    (b = false -> unlock_failure B masterPassword s /\ same_session s s')).
  { intros Hf. destruct (unlockVault_failure B masterPassword s Hf) as (s' & Hs' & Hsame).
    exists false, s'. split; [exact Hs'|]. split; [discriminate | auto]. }
  destruct (firestore_reachable B) eqn:Hr; [|apply Hfail; eapply store_unreachable; eauto].
  destruct (profiles s !! uid u) as [p|] eqn:Hp; [|apply Hfail; eapply profile_missing; eauto].
  destruct (encryption p) as [enc|] eqn:He;
    [|apply Hfail; eapply profile_without_encryption; eauto].
  destruct (base64ToArrayBuffer (salt enc)) as [saltBuffer|e] eqn:Hs;
    [|apply Hfail; eapply salt_undecodable; eauto].
  destruct (verifyMasterPassword_total masterPassword saltBuffer (verifier enc)) as [[|] Hv];
    [|apply Hfail; eapply verification_failed; eauto].
  pose proof Hv as Hv'.
  apply verifyMasterPassword_true_iff in Hv' as (key & _ & _ & Hk & _).
  exists true. eexists. split.
  - unfold unlockVault. rewrite Hu. run_action. rewrite Hr, Hp. simpl.
    rewrite He. simpl. rewrite Hs. simpl. rewrite Hv. simpl. rewrite Hk. simpl.
    reflexivity.
  - simpl. split; [eauto | discriminate].
Qed.
End SessionFacts.

(** C4.  In the Locked state, an unlock attempt that fails (nobody signed
    in, the store unreachable, the profile missing or malformed, or the
    verifier rejecting the candidate password, a throwing step inside the
    verification included) returns [false], does not throw, and leaves the
    session as it was: [encryptionKey] stays null and [isUnlocked] false. *)
Theorem unlockVault_failure_stays_locked `{WC : WebCrypto}
    (B : Backend) (masterPassword : jsstring) (s : Session) :
  Locked s ->
  unlock_failure B masterPassword s ->
  exists s',
    unlockVault B masterPassword s = (Normal false, s') /\
    Locked s' /\ same_session s s'.
Proof.
  intros [Hk Hl] Hf.
  destruct (unlockVault_failure B masterPassword s Hf) as (s' & Hs' & Hsame).
  exists s'. split; [exact Hs'|]. split; [|exact Hsame].
  destruct Hsame as (_ & _ & Hk' & Hl' & _). unfold Locked. rewrite Hk', Hl'. auto.
Qed.

Lemma unlockVault_failure_stays_locked_witness :
  Locked demo_locked_session /\
  exists s',
    unlockVault demo_backend (js "wrong") demo_locked_session = (Normal false, s') /\
    Locked s' /\ same_session demo_locked_session s'.
Proof.
  split; [vm_compute; auto|].
  apply (@unlockVault_failure_stays_locked demo_crypto); [vm_compute; auto|].
  eapply (@verification_failed demo_crypto); [vm_compute; reflexivity ..].
Defined.

(** C5, on the code.  When the identity callback runs with a signed-in user
    (a sign-in, or a switch to a different user), the key and the unlocked
    flag are left as they were: only a null user locks the vault. *)
Theorem identity_switch_keeps_key `{WC : WebCrypto} (u : User) (s : Session) :
  let s' := (onAuthStateChanged_callback (Some u) s).2 in
  user s' = Some u /\
  encryptionKey s' = encryptionKey s /\
  isUnlocked s' = isUnlocked s.
Proof. run_action. auto. Qed.

(** The run behind it: Alice's vault is unlocked, the identity changes to
    Bob, and Bob's session holds Alice's key, unlocked. *)
Lemma identity_switch_keeps_key_run :
  let s' := (onAuthStateChanged_callback (Some bob) demo_unlocked_session).2 in
  user demo_unlocked_session = Some alice /\
  user s' = Some bob /\
  encryptionKey s' = encryptionKey demo_unlocked_session /\
  is_Some (encryptionKey s') /\
  isUnlocked s' = true.
Proof. vm_compute. repeat split; eauto. Qed.

(** The logout half of the claim holds: a null user locks. *)
Lemma logout_event_locks `{WC : WebCrypto} (s : Session) :
  Locked (onAuthStateChanged_callback None s).2.
Proof. run_action. split; reflexivity. Qed.

Section InvariantFacts.
Context `{WC : WebCrypto}.

Lemma signUp_key_iff_unlocked (B : Backend) (rnd : nat -> byte)
    (email password masterPassword : jsstring) (s : Session) :
  key_iff_unlocked s ->
  key_iff_unlocked (signUp B rnd email password masterPassword s).2.
Proof.
  intros Hinv. unfold signUp. run_action.
  destruct (createUserWithEmailAndPassword B email password) as [cred|]; simpl;
    [|exact Hinv].
  destruct (generateVerifier masterPassword (generateSalt rnd)) as [v|]; simpl;
    [|exact Hinv].
  destruct (arrayBufferToBase64 (generateSalt rnd)) as [salt64|]; simpl; [|exact Hinv].
  destruct (firestore_reachable B); simpl; [|exact Hinv].
  destruct (deriveKey masterPassword (generateSalt rnd)) as [key|]; simpl.
  - unfold key_iff_unlocked. simpl. split; eauto.
  - exact Hinv.
Qed.

Lemma unlockVault_key_iff_unlocked (B : Backend) (masterPassword : jsstring)
    (s : Session) :
  key_iff_unlocked s -> key_iff_unlocked (unlockVault B masterPassword s).2.
Proof.
  intros Hinv.
  destruct (unlockVault_total B masterPassword s) as ([|] & s' & -> & Ht & Hf); simpl.
  - destruct (Ht eq_refl) as [Hk Hl]. unfold key_iff_unlocked. tauto.
  - destruct (Hf eq_refl) as [_ (_ & _ & Hk & Hl & _)].
    unfold key_iff_unlocked in *. rewrite Hk, Hl. exact Hinv.
Qed.
End InvariantFacts.

Lemma run_operation_key_iff_unlocked `{WC : WebCrypto}
    (B : Backend) (op : operation) (s : Session) :
  key_iff_unlocked s -> key_iff_unlocked (run_operation B op s).
Proof.
  intros Hinv. destruct op as [rnd email password mp | email password | | mp | | u]; simpl.
  - apply signUp_key_iff_unlocked, Hinv.
  - unfold signIn. run_action.
    destruct (signInWithEmailAndPassword B email password); exact Hinv.
  - unfold logout. run_action. unfold key_iff_unlocked. simpl.
    split; [intros [k Hk]; discriminate | discriminate].
  - apply unlockVault_key_iff_unlocked, Hinv.
  - unfold lockVault. run_action. unfold key_iff_unlocked. simpl.
    split; [intros [k Hk]; discriminate | discriminate].
  - unfold onAuthStateChanged_callback. destruct u as [u|]; run_action.
    + exact Hinv.
    + unfold key_iff_unlocked. simpl.
      split; [intros [k Hk]; discriminate | discriminate].
Qed.

(** C6.  The invariant "[encryptionKey] is non-null if and only if
    [isUnlocked] is true" is preserved by every operation of the session key
    manager: [signUp], [signIn], [logout], [unlockVault], [lockVault] and the
    auth-state-changed callback, whether the operation returns or throws. *)
Theorem every_operation_preserves_key_iff_unlocked `{WC : WebCrypto}
    (B : Backend) (s : Session) :
  key_iff_unlocked s ->
  (forall rnd email password masterPassword,
     key_iff_unlocked (signUp B rnd email password masterPassword s).2) /\
  (forall email password, key_iff_unlocked (signIn B email password s).2) /\
  key_iff_unlocked (logout B s).2 /\
  (forall masterPassword, key_iff_unlocked (unlockVault B masterPassword s).2) /\
  key_iff_unlocked (lockVault s).2 /\
  (forall u, key_iff_unlocked (onAuthStateChanged_callback u s).2).
Proof.
  intros Hinv. split; [|split; [|split; [|split; [|split]]]].
  - intros rnd email password mp.
    apply (run_operation_key_iff_unlocked B (OpSignUp rnd email password mp) s Hinv).
  - intros email password.
    apply (run_operation_key_iff_unlocked B (OpSignIn email password) s Hinv).
  - apply (run_operation_key_iff_unlocked B OpLogout s Hinv).
  - intros mp. apply (run_operation_key_iff_unlocked B (OpUnlockVault mp) s Hinv).
  - apply (run_operation_key_iff_unlocked B OpLockVault s Hinv).
  - intros u. apply (run_operation_key_iff_unlocked B (OpAuthStateChanged u) s Hinv).
Qed.

Lemma every_operation_preserves_key_iff_unlocked_witness :
  key_iff_unlocked demo_locked_session /\
  ((forall rnd email password masterPassword,
      key_iff_unlocked
        (signUp demo_backend rnd email password masterPassword demo_locked_session).2) /\
   (forall email password,
      key_iff_unlocked (signIn demo_backend email password demo_locked_session).2) /\
   key_iff_unlocked (logout demo_backend demo_locked_session).2 /\
   (forall masterPassword,
      key_iff_unlocked (unlockVault demo_backend masterPassword demo_locked_session).2) /\
   key_iff_unlocked (lockVault demo_locked_session).2 /\
   (forall u, key_iff_unlocked (onAuthStateChanged_callback u demo_locked_session).2)).
Proof.
  assert (H : key_iff_unlocked demo_locked_session).
  { vm_compute. split; [intros [k Hk]; discriminate | discriminate]. }
  split; [exact H|].
  exact (@every_operation_preserves_key_iff_unlocked demo_crypto demo_backend
           demo_locked_session H).
Defined.

(** Hence the invariant holds in every state the manager can reach. *)
Lemma reachable_key_iff_unlocked `{WC : WebCrypto}
    (B : Backend) (store : gmap jsstring ProfileDoc) (ops : list operation) :
  key_iff_unlocked (List.fold_left (fun s op => run_operation B op s) ops (initial_session store)).
Proof.
  assert (H0 : key_iff_unlocked (initial_session store)).
  { unfold key_iff_unlocked. simpl. split; [intros [k Hk]; discriminate | discriminate]. }
  revert H0. generalize (initial_session store).
  induction ops as [|op ops IH]; intros s Hs; simpl; [exact Hs|].
  apply IH. apply run_operation_key_iff_unlocked. exact Hs.
Qed.

(** The end-to-end run of the registration: the right master password
    unlocks, a wrong one does not. *)
Lemma unlock_end_to_end :
  (unlockVault demo_backend (js "CorrectHorse1234!") demo_locked_session).1 = Normal true /\
  isUnlocked (unlockVault demo_backend (js "CorrectHorse1234!") demo_locked_session).2 = true /\
  (unlockVault demo_backend (js "wrong") demo_locked_session).1 = Normal false.
Proof. vm_compute. auto. Qed.

(** ** [secureClipboardCopy] *)




(** A refused write: the call rejects, nothing is written and nothing is
    scheduled. *)
Lemma secureClipboardCopy_refused (text : jsstring) (ttl : Z) (b : Browser) :
  write_granted b (clock b) = false ->
  secureClipboardCopy text ttl b = (Throw NotAllowedError, b).
Proof.
  intros Hw.
  unfold secureClipboardCopy, writeText, mbind, action_bind, act_bind.
  rewrite Hw. reflexivity.
Qed.


(** A timer that is not yet due stays in the queue and nothing happens. *)
Lemma advance_before_due (t : Z) (tm : Timer) (q : list Timer) (b : Browser) :
  timers b = tm :: q -> t < fire_at tm ->
  clipboard (advance_to t b) = clipboard b /\ timers (advance_to t b) = tm :: q.
Proof.
  intros Hq Hlt. unfold advance_to. rewrite Hq. simpl.
  destruct (Z.leb_spec (fire_at tm) t); [lia|]. simpl. auto.
Qed.




(** The same run in time: one millisecond after the copy the clipboard is
    already empty. *)
Lemma large_ttl_run :
  let b := mk_Browser 0 [] [] (fun _ => true) (fun _ => true) in
  (secureClipboardCopy (js "secret1") (2 ^ 31) b).1 = Normal tt /\
  clipboard (secureClipboardCopy (js "secret1") (2 ^ 31) b).2 = js "secret1" /\
  clipboard (advance_to 1 (secureClipboardCopy (js "secret1") (2 ^ 31) b).2) = [].
Proof. vm_compute. auto. Qed.



(** With a ttl that is not positive, a granted copy writes the secret and
    schedules nothing. *)
Lemma secureClipboardCopy_no_timer (text : jsstring) (ttl : Z) (b : Browser) :
  ttl <= 0 -> write_granted b (clock b) = true ->
  (secureClipboardCopy text ttl b).1 = Normal tt /\
  clipboard (secureClipboardCopy text ttl b).2 = text /\
  timers (secureClipboardCopy text ttl b).2 = timers b.
Proof.
  intros H Hw.
  unfold secureClipboardCopy, writeText, mbind, action_bind, act_bind.
  rewrite Hw. assert (Hgt : (ttl >? 0) = false) by lia. rewrite Hgt. simpl. auto.
Qed.




(** The scenario of the specification, the clipboard granting every call:
    [copy("secret1", 100)], at 50 ms [copy("secret2", 100)]; at 100 ms the
    clipboard holds "secret2", at 150 ms it is empty. *)
Lemma two_copies_run :
  let b0 := mk_Browser 0 [] [] (fun _ => true) (fun _ => true) in
  let b1 := (secureClipboardCopy (js "secret1") 100 b0).2 in
  let b2 := (secureClipboardCopy (js "secret2") 100 (advance_to 50 b1)).2 in
  clipboard (advance_to 100 b2) = js "secret2" /\
  clipboard (advance_to 150 (advance_to 100 b2)) = [].
Proof. vm_compute. auto. Qed.



(** ** [generatePassword] *)

Lemma build_charset_classes (options : GenOptions) :
  build_charset options =
  if enabled (opt_uppercase options) || enabled (opt_lowercase options)
     || enabled (opt_numbers options) || enabled (opt_symbols options)
  then (if enabled (opt_uppercase options) then UPPER else [])
       ++ (if enabled (opt_lowercase options) then LOWER else [])
       ++ (if enabled (opt_numbers options) then DIGITS else [])
       ++ (if enabled (opt_symbols options) then SYMBOLS else [])
  else ALNUM.
Proof.
  destruct options as [up lo nu sy]. unfold build_charset, enabled. simpl.
  destruct (default true up), (default true lo), (default true nu), (default true sy);
    reflexivity.
Qed.

Lemma build_charset_allowed (options : GenOptions) (c : Z) :
  c ∈ build_charset options <-> allowed_char options c.
Proof.
  rewrite build_charset_classes. unfold allowed_char.
  destruct (enabled (opt_uppercase options)), (enabled (opt_lowercase options)),
    (enabled (opt_numbers options)), (enabled (opt_symbols options)); simpl orb; cbv iota;
    rewrite ?elem_of_app, ?elem_of_nil; try tauto; intuition discriminate.
Qed.

Lemma build_charset_nonempty (options : GenOptions) :
  (0 < List.length (build_charset options))%nat.
Proof.
  rewrite build_charset_classes.
  destruct (enabled (opt_uppercase options)), (enabled (opt_lowercase options)),
    (enabled (opt_numbers options)), (enabled (opt_symbols options));
    vm_compute; lia.
Qed.

(** The loop of [generatePassword]: one character of the set per random
    value. *)
Lemma password_loop (charset : jsstring) (array : list Z) (acc : jsstring) :
  (0 < List.length charset)%nat ->
  exists chars,
    List.fold_left
      (fun password r => append_index password charset (r mod Z.of_nat (List.length charset)))
      array acc = acc ++ chars /\
    List.length chars = List.length array /\
    Forall (fun c => c ∈ charset) chars.
Proof.
  intros Hne. revert acc. induction array as [|r array IH]; intros acc; simpl.
  - exists []. rewrite app_nil_r. split; [reflexivity|]. split; [reflexivity | apply Forall_nil_2].
  - assert (Hr : 0 <= r mod Z.of_nat (List.length charset) < Z.of_nat (List.length charset))
      by (apply Z.mod_pos_bound; lia).
    unfold append_index at 2.
    destruct (charset !! Z.to_nat (r mod Z.of_nat (List.length charset))) as [c|] eqn:E.
    + destruct (IH (acc ++ [c])) as (chars & Hf & Hl & Hall).
      exists (c :: chars). rewrite Hf, <- app_assoc. simpl.
      split; [reflexivity|]. split; [lia|].
      apply Forall_cons_2; [|exact Hall].
      eapply list_elem_of_lookup_2. exact E.
    + apply lookup_ge_None in E. lia.
Qed.

(** C8.  For every length [n] with [8 <= n <= 64], every selection of the
    class flags and every outcome of the random source,
    [generatePassword(n, flags)] returns a string of exactly [n] characters,
    each from the union of the enabled classes; when no class is enabled,
    each from the alphanumeric set. *)
Theorem generatePassword_length_and_classes
    (n : Z) (options : GenOptions) (rnd : nat -> Z) :
  8 <= n <= 64 ->
  exists password,
    generatePassword n options rnd = Normal password /\
    Z.of_nat (List.length password) = n /\
    Forall (allowed_char options) password.
Proof.
  intros Hn. unfold generatePassword, getRandomValues_Uint32.
  assert (H1 : (n <? 0) || (2 ^ 53 <=? n) = false) by lia.
  assert (H2 : (65536 <? 4 * n) = false) by lia.
  rewrite H1, H2. simpl.
  destruct (password_loop (build_charset options)
              (List.map (fun i => rnd i mod 2 ^ 32) (List.seq 0 (Z.to_nat n))) []
              (build_charset_nonempty options)) as (chars & Hf & Hl & Hall).
  exists chars. split; [rewrite Hf; reflexivity|]. split.
  - rewrite Hl, List.length_map, List.length_seq. lia.
  - eapply Forall_impl; [exact Hall|]. intros c Hc. apply build_charset_allowed, Hc.
Qed.

Lemma generatePassword_length_and_classes_witness :
  let options := mk_GenOptions (Some true) (Some false) (Some true) (Some false) in
  exists password,
    generatePassword 16 options (fun i => Z.of_nat i * 2654435761 + 12345) = Normal password /\
    Z.of_nat (List.length password) = 16 /\
    Forall (allowed_char options) password.
Proof.
  apply (generatePassword_length_and_classes 16
           (mk_GenOptions (Some true) (Some false) (Some true) (Some false))).
  lia.
Defined.

(** The example of the specification: upper case and digits only. *)
Lemma generatePassword_run :
  generatePassword 16 (mk_GenOptions (Some true) (Some false) (Some true) (Some false))
    (fun i => Z.of_nat i * 2654435761 + 12345)
  = Normal (js "7WH6RC1MBWH6RC1M").
Proof. vm_compute. reflexivity. Qed.

(** ** [Passwords]: one record's failure does not stop the loop *)

Module PasswordsFacts.
Import Passwords.

Section LoaderFacts.
Context `{WC : WebCrypto}.
Variable JSON_parse : jsstring -> completion json.
Variable encryptionKey : CryptoKey.

Lemma loop_result (docs : list EncryptedPasswordDoc)
    (acc : list PasswordEntry * list exn) :
  List.fold_left (loop_body JSON_parse encryptionKey) docs acc
  = (acc.1 ++ omap (shown JSON_parse encryptionKey) docs,
     acc.2 ++ omap (logged JSON_parse encryptionKey) docs).
Proof.
  revert acc. induction docs as [|d docs IH]; intros [entries errors]; simpl.
  - rewrite !app_nil_r. reflexivity.
  - rewrite IH. unfold loop_body, shown, logged. simpl.
    destruct (decrypt_entry JSON_parse encryptionKey d); simpl;
      rewrite <- ?app_assoc; reflexivity.
Qed.

(** The page shows the records that decrypt, in store order, and logs
    one error per record that does not. *)
Lemma onSnapshot_callback_result (docs : list EncryptedPasswordDoc) (st : PageState) :
  onSnapshot_callback JSON_parse encryptionKey docs st
  = mk_PageState (omap (shown JSON_parse encryptionKey) docs) false
      (console_errors st ++ omap (logged JSON_parse encryptionKey) docs).
Proof.
  unfold onSnapshot_callback. rewrite loop_result. reflexivity.
Qed.

Lemma decrypt_failure_not_shown (d : EncryptedPasswordDoc) (e : exn) :
  decryptData (doc_ciphertext d) (doc_iv d) encryptionKey = Throw e ->
  shown JSON_parse encryptionKey d = None /\ logged JSON_parse encryptionKey d = Some e.
Proof.
  intros H. unfold shown, logged, decrypt_entry. rewrite H. simpl. auto.
Qed.
(** A document is shown exactly when its text decrypts and parses to a
    value other than [null]; the entry then has the document's own fields
    and the four properties of the parsed value. *)
Lemma decrypt_entry_value (r : EncryptedPasswordDoc) (entry : PasswordEntry) :
  decrypt_entry JSON_parse encryptionKey r = Normal entry <->
  exists decryptedJson decrypted,
    decryptData (doc_ciphertext r) (doc_iv r) encryptionKey = Normal decryptedJson /\
    JSON_parse decryptedJson = Normal decrypted /\ decrypted <> JNull /\
    entry = entry_of r decrypted.
Proof.
  unfold decrypt_entry, entry_of, shown_field.
  cbv [mbind completion_bind cbind]. split.
  - destruct (decryptData (doc_ciphertext r) (doc_iv r) encryptionKey) as [text|] eqn:Ed;
      [|discriminate].
    destruct (JSON_parse text) as [v|] eqn:Ep; [|discriminate].
    intros H. exists text, v. split; [reflexivity|]. split; [exact Ep|].
    destruct v; cbv [get_property] in H |- *;
      try discriminate H; injection H as <-;
      (split; [discriminate | reflexivity]).
  - intros (text & v & Ed & Ep & Hn & ->). rewrite Ed, Ep.
    destruct v; cbv [get_property]; try reflexivity.
    congruence.
Qed.
End LoaderFacts.

(** C9.  When a snapshot is processed and the decryption of one record
    fails, that record is skipped: its error is logged and nothing of it is
    shown.  Every other record of the snapshot is still processed: the
    result is what the records before it and after it give, in order; each
    of them whose text decrypts and parses to a value other than [null] is
    included, with its own id, title, tags and dates and the four fields of
    its decrypted text; and nothing else is shown. *)
Theorem failed_record_is_skipped `{WC : WebCrypto}
    (JSON_parse : jsstring -> completion json) (encryptionKey : CryptoKey)
    (before after : list EncryptedPasswordDoc) (d : EncryptedPasswordDoc)
    (e : exn) (st : PageState) :
  decryptData (doc_ciphertext d) (doc_iv d) encryptionKey = Throw e ->
  let st' := onSnapshot_callback JSON_parse encryptionKey (before ++ d :: after) st in
  passwords st' =
    passwords (onSnapshot_callback JSON_parse encryptionKey before st)
    ++ passwords (onSnapshot_callback JSON_parse encryptionKey after st) /\
  (forall r decryptedJson decrypted,
     r ∈ before ++ after ->
     decryptData (doc_ciphertext r) (doc_iv r) encryptionKey = Normal decryptedJson ->
     JSON_parse decryptedJson = Normal decrypted -> decrypted <> JNull ->
     entry_of r decrypted ∈ passwords st') /\
  (forall entry,
     entry ∈ passwords st' ->
     exists r decryptedJson decrypted,
       r ∈ before ++ after /\
       decryptData (doc_ciphertext r) (doc_iv r) encryptionKey = Normal decryptedJson /\
       JSON_parse decryptedJson = Normal decrypted /\
       entry = entry_of r decrypted) /\
  e ∈ console_errors st' /\
  loading st' = false.
Proof.
  intros Hd. cbn zeta. rewrite !onSnapshot_callback_result. simpl.
  destruct (decrypt_failure_not_shown JSON_parse encryptionKey d e Hd) as [Hs Hl].
  rewrite !omap_app. simpl. rewrite Hs, Hl.
  split; [reflexivity|]. split; [|split; [|split; [|reflexivity]]].
  - intros r text v Hr Ed Ep Hn. rewrite <- omap_app.
    apply list_elem_of_omap. exists r. split; [exact Hr|].
    unfold shown.
    assert (He : decrypt_entry JSON_parse encryptionKey r = Normal (entry_of r v)).
    { apply decrypt_entry_value. exists text, v. auto. }
    rewrite He. reflexivity.
  - intros entry Hin. rewrite <- omap_app in Hin.
    apply list_elem_of_omap in Hin as (r & Hr & Hshown).
    unfold shown in Hshown.
    destruct (decrypt_entry JSON_parse encryptionKey r) as [entry'|] eqn:He;
      [|discriminate].
    injection Hshown as ->.
    apply decrypt_entry_value in He as (text & v & Ed & Ep & _ & ->).
    exists r, text, v. auto.
  - rewrite !elem_of_app. right. right. apply list_elem_of_here.
Qed.
End PasswordsFacts.

Lemma failed_record_is_skipped_witness :
  let good1 := demo_doc "a" "AQIDCzBVep/E6Q4zWH2iaHVudGVyMg==" in
  let bad := demo_doc "b" "AQIDCzBVep/E6Q4zWH2jaHVudGVyMg==" in
  let good2 := demo_doc "c" "AQIDCzBVep/E6Q4zWH2iczNjcmV0" in
  let st := Passwords.mk_PageState [] true [] in
  let st' := @Passwords.onSnapshot_callback demo_crypto demo_parse demo_key
               ([good1] ++ bad :: [good2]) st in
  @decryptData demo_crypto (Passwords.doc_ciphertext bad) (Passwords.doc_iv bad) demo_key
    = Throw OperationError /\
  Passwords.passwords st' =
    Passwords.passwords (@Passwords.onSnapshot_callback demo_crypto demo_parse demo_key [good1] st)
    ++ Passwords.passwords (@Passwords.onSnapshot_callback demo_crypto demo_parse demo_key [good2] st) /\
  (forall r decryptedJson decrypted,
     r ∈ [good1] ++ [good2] ->
     @decryptData demo_crypto (Passwords.doc_ciphertext r) (Passwords.doc_iv r) demo_key
       = Normal decryptedJson ->
     demo_parse decryptedJson = Normal decrypted -> decrypted <> Passwords.JNull ->
     entry_of r decrypted ∈ Passwords.passwords st') /\
  (forall entry,
     entry ∈ Passwords.passwords st' ->
     exists r decryptedJson decrypted,
       r ∈ [good1] ++ [good2] /\
       @decryptData demo_crypto (Passwords.doc_ciphertext r) (Passwords.doc_iv r) demo_key
         = Normal decryptedJson /\
       demo_parse decryptedJson = Normal decrypted /\
       entry = entry_of r decrypted) /\
  OperationError ∈ Passwords.console_errors st' /\
  Passwords.loading st' = false.
Proof.
  cbn zeta. split; [vm_compute; reflexivity|].
  apply (@PasswordsFacts.failed_record_is_skipped demo_crypto demo_parse demo_key
           [demo_doc "a" "AQIDCzBVep/E6Q4zWH2iaHVudGVyMg=="]
           [demo_doc "c" "AQIDCzBVep/E6Q4zWH2iczNjcmV0"]
           (demo_doc "b" "AQIDCzBVep/E6Q4zWH2jaHVudGVyMg==")
           OperationError (Passwords.mk_PageState [] true [])).
  vm_compute. reflexivity.
Defined.

(** The run: two entries shown, in order, and one error logged. *)
Lemma snapshot_run :
  let st' := @Passwords.onSnapshot_callback demo_crypto demo_parse demo_key
               [demo_doc "a" "AQIDCzBVep/E6Q4zWH2iaHVudGVyMg==";
                demo_doc "b" "AQIDCzBVep/E6Q4zWH2jaHVudGVyMg==";
                demo_doc "c" "AQIDCzBVep/E6Q4zWH2iczNjcmV0"]
               (Passwords.mk_PageState [] true []) in
  List.map Passwords.id (Passwords.passwords st') = [js "a"; js "c"] /\
  List.map Passwords.password (Passwords.passwords st')
    = [Some (Passwords.JString (js "hunter2")); Some (Passwords.JString (js "s3cret"))] /\
  Passwords.console_errors st' = [OperationError].
Proof. vm_compute. auto. Qed.

(** * Further properties of the code *)

(** ** [crypto.ts]: files, stored encodings, key material *)

(** X1.  [decryptFile] undoes [encryptFile] for every byte sequence: if
    [encryptFile(file, key)] returns [{encryptedData, iv}], then
    [decryptFile(encryptedData, iv, key)] returns exactly [file].  No text
    encoding is involved, so nothing is excluded. *)
Theorem decryptFile_encryptFile `{WC : WebCrypto}
    (file : bytes) (K : CryptoKey) (rnd : nat -> byte) (e : EncryptedFile) :
  encryptFile file K rnd = Normal e ->
  decryptFile (encryptedData e) (file_iv e) K = Normal file.
Proof.
  unfold encryptFile, decryptFile. intros He.
  destruct (aes_gcm_encrypt K (generateIV rnd) file) as [sealed|] eqn:Es; [|discriminate].
  simpl in He.
  destruct (arrayBufferToBase64 (generateIV rnd)) as [i64|] eqn:Ei; [|discriminate].
  simpl in He. injection He as <-. simpl.
  rewrite (base64_roundtrip _ _ Ei). simpl.
  apply aes_gcm_open_sealed. exact Es.
Qed.

Lemma decryptFile_encryptFile_witness :
  exists e,
    @encryptFile demo_crypto [x00; xef; xbb; xbf; xff] demo_key demo_rnd = Normal e /\
    @decryptFile demo_crypto (encryptedData e) (file_iv e) demo_key
    = Normal [x00; xef; xbb; xbf; xff].
Proof.
  eexists. split; [vm_compute; reflexivity|].
  apply (@decryptFile_encryptFile demo_crypto [x00; xef; xbb; xbf; xff] demo_key demo_rnd).
  vm_compute. reflexivity.
Defined.

Lemma b64_encode_length (l : list Z) :
  Z.of_nat (List.length (b64_encode l)) = 4 * ((Z.of_nat (List.length l) + 2) / 3).
Proof.
  unfold b64_encode. rewrite List.length_app, List.length_map.
  induction l as [|a|a b|a b c l IH] using list_ind3.
  - reflexivity.
  - reflexivity.
  - reflexivity.
  - change (b64_padding (a :: b :: c :: l)) with (b64_padding l).
    change (List.length (b64_sextets (a :: b :: c :: l)))
      with (4 + List.length (b64_sextets l))%nat.
    change (List.length (a :: b :: c :: l)) with (3 + List.length l)%nat.
    replace (Z.of_nat (3 + List.length l) + 2)
      with (Z.of_nat (List.length l) + 2 + 1 * 3) by lia.
    rewrite Z.div_add by lia. lia.
Qed.

Lemma b64_encode_alphabet (l : list Z) :
  Forall is_byte_value l ->
  Forall (fun c => is_Some (b64_value c) \/ c = b64_pad) (b64_encode l).
Proof.
  intros H. unfold b64_encode. apply Forall_app_2.
  - pose proof (b64_sextets_range l H) as Hs.
    induction Hs as [|v vs Hv _ IH]; simpl; [apply Forall_nil_2|].
    apply Forall_cons_2; [|exact IH]. left. rewrite b64_value_char by exact Hv. eauto.
  - destruct (b64_shape l) as [[-> _] | [[-> _] | [-> _]]];
      repeat (apply Forall_cons_2; [right; reflexivity|]); apply Forall_nil_2.
Qed.

(** X2.  [arrayBufferToBase64] never throws; for a buffer of [n] bytes it
    returns [4 * ceil(n / 3)] characters, each a letter of the base64
    alphabet or the padding sign. *)
Theorem arrayBufferToBase64_shape (buffer : bytes) :
  exists s,
    arrayBufferToBase64 buffer = Normal s /\
    Z.of_nat (List.length s) = 4 * ((Z.of_nat (List.length buffer) + 2) / 3) /\
    Forall (fun c => is_Some (b64_value c) \/ c = b64_pad) s.
Proof.
  exists (b64_encode (List.map Z_of_byte buffer)).
  split; [apply arrayBufferToBase64_value|]. split.
  - rewrite b64_encode_length, List.length_map. reflexivity.
  - apply b64_encode_alphabet, buffer_values_are_bytes.
Qed.

(** X3.  The nonce that [encryptData] returns is a string of sixteen
    characters that decodes to the twelve random bytes drawn for this call;
    the ciphertext field decodes to what the cipher produced. *)
Theorem encryptData_fields `{WC : WebCrypto}
    (P : jsstring) (K : CryptoKey) (rnd : nat -> byte) (c : EncryptedData) :
  encryptData P K rnd = Normal c ->
  List.length (iv c) = 16%nat /\
  base64ToArrayBuffer (iv c) = Normal (List.map rnd (List.seq 0 12)) /\
  exists sealed,
    aes_gcm_encrypt K (List.map rnd (List.seq 0 12)) (TextEncoder_encode P) = Normal sealed /\
    base64ToArrayBuffer (ciphertext c) = Normal sealed.
Proof.
  unfold encryptData. intros Hc.
  destruct (aes_gcm_encrypt K (generateIV rnd) (TextEncoder_encode P)) as [sealed|] eqn:Es;
    [|discriminate].
  simpl in Hc.
  destruct (arrayBufferToBase64 sealed) as [c64|] eqn:Ec; [|discriminate].
  destruct (arrayBufferToBase64 (generateIV rnd)) as [i64|] eqn:Ei; [|discriminate].
  simpl in Hc. injection Hc as <-. simpl.
  split; [|split].
  - rewrite arrayBufferToBase64_value in Ei. injection Ei as <-. reflexivity.
  - apply (base64_roundtrip _ _ Ei).
  - exists sealed. split; [exact Es | apply (base64_roundtrip _ _ Ec)].
Qed.

Lemma encryptData_fields_witness :
  exists c,
    @encryptData demo_crypto (js "hunter2") demo_key demo_rnd = Normal c /\
    List.length (iv c) = 16%nat /\
    base64ToArrayBuffer (iv c) = Normal (List.map demo_rnd (List.seq 0 12)) /\
    exists sealed,
      @aes_gcm_encrypt demo_crypto demo_key (List.map demo_rnd (List.seq 0 12))
        (TextEncoder_encode (js "hunter2")) = Normal sealed /\
      base64ToArrayBuffer (ciphertext c) = Normal sealed.
Proof.
  eexists. split; [vm_compute; reflexivity|].
  apply (@encryptData_fields demo_crypto (js "hunter2") demo_key demo_rnd).
  vm_compute. reflexivity.
Defined.

(** X4.  The key depends on the master password only through its scalar
    values: two passwords that differ in unpaired surrogates only (each is
    encoded as U+FFFD) derive the same key, so the verifier made for one
    accepts the other. *)
Theorem verifier_accepts_same_scalars `{WC : WebCrypto}
    (password password' : jsstring) (salt : bytes) (v : jsstring) :
  to_scalars password' = to_scalars password ->
  generateVerifier password salt = Normal v ->
  deriveKey password' salt = deriveKey password salt /\
  verifyMasterPassword password' salt v = Normal true.
Proof.
  intros Hs Hg.
  assert (Hk : deriveKey password' salt = deriveKey password salt).
  { unfold deriveKey, TextEncoder_encode. rewrite Hs. reflexivity. }
  split; [exact Hk|].
  unfold generateVerifier in Hg.
  destruct (deriveKey password salt) as [key|] eqn:Ek; [|discriminate].
  simpl in Hg.
  destruct (aes_gcm_encrypt key zero_iv (TextEncoder_encode VERIFY)) as [sealed|] eqn:Es;
    [|discriminate].
  simpl in Hg.
  apply verifyMasterPassword_true_iff.
  exists key, sealed, (TextEncoder_encode VERIFY).
  split; [exact Hk|]. split; [apply base64_roundtrip; exact Hg|].
  split; [apply aes_gcm_open_sealed; exact Es | apply VERIFY_text].
Qed.

Lemma verifier_accepts_same_scalars_witness :
  exists v,
    @generateVerifier demo_crypto (js "pass" ++ [0xD800]) (generateSalt demo_rnd) = Normal v /\
    @deriveKey demo_crypto (js "pass" ++ [0xDFFF]) (generateSalt demo_rnd)
    = @deriveKey demo_crypto (js "pass" ++ [0xD800]) (generateSalt demo_rnd) /\
    @verifyMasterPassword demo_crypto (js "pass" ++ [0xDFFF]) (generateSalt demo_rnd) v
    = Normal true.
Proof.
  eexists. split; [vm_compute; reflexivity|].
  apply (@verifier_accepts_same_scalars demo_crypto (js "pass" ++ [0xD800])
           (js "pass" ++ [0xDFFF]) (generateSalt demo_rnd));
    vm_compute; reflexivity.
Defined.

(** ** [generatePassword] on every length *)

Lemma password_loop_value (charset : jsstring) (array : list Z) (acc : jsstring) :
  (0 < List.length charset)%nat ->
  List.fold_left
    (fun password r => append_index password charset (r mod Z.of_nat (List.length charset)))
    array acc
  = acc ++ List.map
             (fun r => List.nth (Z.to_nat (r mod Z.of_nat (List.length charset))) charset 0)
             array.
Proof.
  intros Hne. revert acc. induction array as [|r array IH]; intros acc; simpl.
  - rewrite app_nil_r. reflexivity.
  - assert (Hr : 0 <= r mod Z.of_nat (List.length charset) < Z.of_nat (List.length charset))
      by (apply Z.mod_pos_bound; lia).
    unfold append_index at 2.
    destruct (charset !! Z.to_nat (r mod Z.of_nat (List.length charset))) as [c|] eqn:E.
    + rewrite IH, <- app_assoc. simpl.
      rewrite (nth_lookup_Some _ _ 0 _ E). reflexivity.
    + apply lookup_ge_None in E. lia.
Qed.

(** X5.  [generatePassword] on every integer length: a negative length and
    a length of 2^53 or more throw a RangeError; every length above 16384
    throws, a RangeError or a QuotaExceededError, and returns no password;
    every length from 0 to 16384 returns the string whose [i]-th character
    is [charset[(r_i mod 2^32) mod charset.length]], [r_i] being the [i]-th
    random value; in particular length 0 gives the empty string and the text
    "undefined" is never appended. *)
Theorem generatePassword_outcome (n : Z) (options : GenOptions) (rnd : nat -> Z) :
  let charset := build_charset options in
  (n < 0 \/ 2 ^ 53 <= n -> generatePassword n options rnd = Throw RangeError) /\
  (16384 < n ->
   generatePassword n options rnd = Throw RangeError \/
   generatePassword n options rnd = Throw QuotaExceededError) /\
  (0 <= n <= 16384 ->
   generatePassword n options rnd =
   Normal (List.map
             (fun i => List.nth
                         (Z.to_nat ((rnd i mod 2 ^ 32) mod Z.of_nat (List.length charset)))
                         charset 0)
             (List.seq 0 (Z.to_nat n)))).
Proof.
  cbn zeta. unfold generatePassword, getRandomValues_Uint32.
  split; [|split]; intros Hn.
  - assert (E : (n <? 0) || (2 ^ 53 <=? n) = true) by lia. rewrite E. reflexivity.
  - destruct ((n <? 0) || (2 ^ 53 <=? n)); [left; reflexivity|].
    assert (E2 : (65536 <? 4 * n) = true) by lia. rewrite E2. right. reflexivity.
  - assert (E1 : (n <? 0) || (2 ^ 53 <=? n) = false) by lia.
    assert (E2 : (65536 <? 4 * n) = false) by lia. rewrite E1, E2. simpl.
    rewrite password_loop_value by apply build_charset_nonempty.
    rewrite List.map_map. reflexivity.
Qed.

(** ** [AuthProvider]: registration, unlock and what is shown *)

Section UnlockFacts.
Context `{WC : WebCrypto}.

Lemma generated_verifier_accepted (password : jsstring) (salt : bytes) (v : jsstring) :
  generateVerifier password salt = Normal v ->
  verifyMasterPassword password salt v = Normal true.
Proof.
  unfold generateVerifier. intros Hg.
  destruct (deriveKey password salt) as [key|] eqn:Ek; [|discriminate].
  simpl in Hg.
  destruct (aes_gcm_encrypt key zero_iv (TextEncoder_encode VERIFY)) as [sealed|] eqn:Es;
    [|discriminate].
  simpl in Hg.
  apply verifyMasterPassword_true_iff.
  exists key, sealed, (TextEncoder_encode VERIFY).
  split; [exact Ek|]. split; [apply base64_roundtrip; exact Hg|].
  split; [apply aes_gcm_open_sealed; exact Es | apply VERIFY_text].
Qed.

Lemma unlockVault_success (B : Backend) (masterPassword : jsstring) (s : Session)
    (u : User) (p : ProfileDoc) (enc : EncryptionProfile) (saltBuffer : bytes)
    (key : CryptoKey) :
  user s = Some u -> firestore_reachable B = true ->
  profiles s !! uid u = Some p -> encryption p = Some enc ->
  base64ToArrayBuffer (salt enc) = Normal saltBuffer ->
  verifyMasterPassword masterPassword saltBuffer (verifier enc) = Normal true ->
  deriveKey masterPassword saltBuffer = Normal key ->
  unlockVault B masterPassword s = (Normal true, unlocked_with key s).
Proof.
  intros Hu Hr Hp He Hs Hv Hk. unfold unlockVault. rewrite Hu. run_action.
  rewrite Hr, Hp. simpl. rewrite He. simpl. rewrite Hs. simpl. rewrite Hv. simpl.
  rewrite Hk. simpl. reflexivity.
Qed.
End UnlockFacts.

(** X9.  [unlockVault] returns [true] exactly when a user is signed in, the
    store answers with a profile that has an encryption profile, its salt
    decodes and its verifier accepts the candidate password; the key it
    installs is then [deriveKey(masterPassword, salt)] for the stored salt,
    and nothing else of the session changes. *)
Theorem unlockVault_true_iff `{WC : WebCrypto}
    (B : Backend) (masterPassword : jsstring) (s s' : Session) :
  unlockVault B masterPassword s = (Normal true, s') <->
  exists u p enc saltBuffer key,
    user s = Some u /\ firestore_reachable B = true /\
    profiles s !! uid u = Some p /\ encryption p = Some enc /\
    base64ToArrayBuffer (salt enc) = Normal saltBuffer /\
    verifyMasterPassword masterPassword saltBuffer (verifier enc) = Normal true /\
    deriveKey masterPassword saltBuffer = Normal key /\
    s' = unlocked_with key s.
Proof.
  split.
  - intros Hun.
    destruct (user s) as [u|] eqn:Hu.
    2:{ unfold unlockVault in Hun. rewrite Hu in Hun. discriminate. }
    assert (Hnf : ~ unlock_failure B masterPassword s).
    { intros Hf. destruct (unlockVault_failure B masterPassword s Hf) as (s0 & Hs0 & _).
      rewrite Hs0 in Hun. discriminate. }
    destruct (firestore_reachable B) eqn:Hr;
      [|exfalso; apply Hnf; eapply store_unreachable; eauto].
    destruct (profiles s !! uid u) as [p|] eqn:Hp;
      [|exfalso; apply Hnf; eapply profile_missing; eauto].
    destruct (encryption p) as [enc|] eqn:He;
      [|exfalso; apply Hnf; eapply profile_without_encryption; eauto].
    destruct (base64ToArrayBuffer (salt enc)) as [saltBuffer|e] eqn:Hs;
      [|exfalso; apply Hnf; eapply salt_undecodable; eauto].
    destruct (verifyMasterPassword_total masterPassword saltBuffer (verifier enc))
      as [[|] Hv]; [|exfalso; apply Hnf; eapply verification_failed; eauto].
    pose proof Hv as Hv'.
    apply verifyMasterPassword_true_iff in Hv' as (key & _ & _ & Hk & _).
    rewrite (unlockVault_success B masterPassword s u p enc saltBuffer key) in Hun
      by assumption.
    injection Hun as <-. exists u, p, enc, saltBuffer, key. auto 10.
  - intros (u & p & enc & saltBuffer & key & Hu & Hr & Hp & He & Hs & Hv & Hk & ->).
    eapply unlockVault_success; eauto.
Qed.

(** X10.  Registration and unlock fit together: when [signUp] has returned
    for the user the identity service created, [unlockVault] with the same
    master password, in any later session of that user over the stored
    profile, returns [true] and installs the key that [signUp] had
    installed. *)
Theorem signUp_then_unlockVault `{WC : WebCrypto}
    (B : Backend) (rnd : nat -> byte) (email password masterPassword : jsstring)
    (s s1 s2 : Session) (u : User) :
  createUserWithEmailAndPassword B email password = Normal u ->
  signUp B rnd email password masterPassword s = (Normal tt, s1) ->
  user s2 = Some u ->
  profiles s2 !! uid u = profiles s1 !! uid u ->
  exists key,
    encryptionKey s1 = Some key /\ isUnlocked s1 = true /\
    unlockVault B masterPassword s2 = (Normal true, unlocked_with key s2).
Proof.
  intros Hc Hsign Hu Hp. unfold signUp in Hsign. run_action. rewrite Hc in Hsign.
  simpl in Hsign.
  destruct (generateVerifier masterPassword (generateSalt rnd)) as [v|] eqn:Hg;
    simpl in Hsign; [|discriminate].
  destruct (arrayBufferToBase64 (generateSalt rnd)) as [salt64|] eqn:H64;
    simpl in Hsign; [|discriminate].
  destruct (firestore_reachable B) eqn:Hr; simpl in Hsign; [|discriminate].
  destruct (deriveKey masterPassword (generateSalt rnd)) as [key|] eqn:Hk;
    simpl in Hsign; [|discriminate].
  injection Hsign as <-. simpl in Hp. rewrite lookup_insert_eq in Hp.
  exists key. split; [reflexivity|]. split; [reflexivity|].
  eapply unlockVault_success; eauto.
  - simpl. apply base64_roundtrip. exact H64.
  - simpl. apply generated_verifier_accepted. exact Hg.
Qed.

Lemma signUp_then_unlockVault_witness :
  let s1 := (signUp demo_backend demo_rnd (js "alice@example.org") (js "pw")
               (js "CorrectHorse1234!") (initial_session ∅)).2 in
  exists key,
    encryptionKey s1 = Some key /\ isUnlocked s1 = true /\
    unlockVault demo_backend (js "CorrectHorse1234!") demo_locked_session
    = (Normal true, unlocked_with key demo_locked_session).
Proof.
  apply (@signUp_then_unlockVault demo_crypto demo_backend demo_rnd
           (js "alice@example.org") (js "pw") (js "CorrectHorse1234!")
           (initial_session ∅) _ demo_locked_session alice);
    vm_compute; reflexivity.
Defined.

(** X11.  The pages are shown only to a signed-in user whose session holds
    a key: in every session reachable from the initial one, when [AppLayout]
    renders the application content, loading is over, a user is signed in,
    the vault is unlocked and [encryptionKey] is non-null. *)
Theorem content_shown_only_with_key `{WC : WebCrypto}
    (B : Backend) (store : gmap jsstring ProfileDoc) (ops : list operation) :
  let s := List.fold_left (fun s op => run_operation B op s) ops (initial_session store) in
  AppLayout s = AppContent ->
  loading s = false /\ is_Some (user s) /\ isUnlocked s = true /\ is_Some (encryptionKey s).
Proof.
  cbn zeta. intros Hview.
  pose proof (reachable_key_iff_unlocked B store ops) as Hinv.
  remember (List.fold_left (fun s op => run_operation B op s) ops (initial_session store))
    as s eqn:Es.
  clear Es. unfold AppLayout in Hview.
  destruct (loading s); [discriminate|].
  destruct (user s) as [u|]; [|discriminate].
  destruct (isUnlocked s) eqn:Hl; [|discriminate].
  split; [reflexivity|]. split; [eauto|]. split; [reflexivity|].
  apply Hinv. exact Hl.
Qed.

Lemma content_shown_only_with_key_witness :
  let s := List.fold_left (fun s op => run_operation demo_backend op s)
             [OpSignUp demo_rnd (js "alice@example.org") (js "pw") (js "CorrectHorse1234!");
              OpAuthStateChanged (Some alice)]
             (@initial_session demo_crypto ∅) in
  AppLayout s = AppContent /\
  loading s = false /\ is_Some (user s) /\ isUnlocked s = true /\ is_Some (encryptionKey s).
Proof.
  cbn zeta.
  assert (H : AppLayout
                (List.fold_left (fun s op => run_operation demo_backend op s)
                   [OpSignUp demo_rnd (js "alice@example.org") (js "pw")
                      (js "CorrectHorse1234!");
                    OpAuthStateChanged (Some alice)]
                   (@initial_session demo_crypto ∅)) = AppContent).
  { vm_compute. reflexivity. }
  split; [exact H|].
  exact (@content_shown_only_with_key demo_crypto demo_backend ∅
           [OpSignUp demo_rnd (js "alice@example.org") (js "pw") (js "CorrectHorse1234!");
            OpAuthStateChanged (Some alice)] H).
Defined.

(** X12.  [handleUnlock] always ends with the form's loading flag off, and
    its [catch] branch is dead: the message "Failed to unlock vault" is never
    shown.  The form shows "Incorrect master password" exactly when the
    unlock attempt failed, an unreachable store or a missing profile
    included, and no message exactly when the vault is now unlocked. *)
Theorem handleUnlock_message `{WC : WebCrypto}
    (B : Backend) (f : UnlockForm) (s : Session) :
  let f' := (handleUnlock B f s).1 in
  let s' := (handleUnlock B f s).2 in
  form_loading f' = false /\
  form_error f' <> js "Failed to unlock vault" /\
  (form_error f' = js "Incorrect master password" <->
   unlock_failure B (form_masterPassword f) s) /\
  (form_error f' = [] <->
   unlockVault B (form_masterPassword f) s = (Normal true, s')).
Proof.
  cbn zeta. unfold handleUnlock. simpl.
  destruct (unlockVault_total B (form_masterPassword f) s) as (b & s0 & Hun & Ht & Hf).
  rewrite Hun. destruct b; simpl.
  - split; [reflexivity|]. split; [discriminate|]. split.
    + split; [discriminate|]. intros Hfail.
      destruct (unlockVault_failure B (form_masterPassword f) s Hfail) as (s1 & Hs1 & _).
      rewrite Hs1 in Hun. discriminate.
    + split; reflexivity.
  - split; [reflexivity|]. split; [discriminate|]. split.
    + split; [intros _; apply Hf; reflexivity | reflexivity].
    + split; discriminate.
Qed.

(** ** [Vault]: formatting card numbers and expiry dates *)

Lemma list_ind4 {A} (P : list A -> Prop) :
  P [] -> (forall a, P [a]) -> (forall a b, P [a; b]) -> (forall a b c, P [a; b; c]) ->
  (forall a b c d l, P l -> P (a :: b :: c :: d :: l)) ->
  forall l, P l.
Proof.
  intros H0 H1 H2 H3 H4.
  assert (H : forall l, P l /\ (forall a, P (a :: l)) /\ (forall a b, P (a :: b :: l))
                        /\ (forall a b c, P (a :: b :: c :: l))).
  { induction l as [|x l (IH0 & IH1 & IH2 & IH3)]; [auto|].
    split; [apply IH1|]. split; [intros a; apply IH2|].
    split; [intros a b; apply IH3|]. intros a b c. apply H4. exact IH0. }
  intros l. apply H.
Qed.

Lemma concat_match_groups_of_4 (s : jsstring) : List.concat (match_groups_of_4 s) = s.
Proof.
  induction s as [|a|a b|a b c|a b c d l IH] using list_ind4; try reflexivity.
  change (match_groups_of_4 (a :: b :: c :: d :: l))
    with ([a; b; c; d] :: match_groups_of_4 l).
  simpl. rewrite IH. reflexivity.
Qed.

Lemma filter_concat_join (p : Z -> bool) (sep : jsstring) (l : list jsstring) :
  List.filter p sep = [] ->
  List.filter p (join sep l) = List.filter p (List.concat l).
Proof.
  intros Hsep. induction l as [|x [|y l] IH].
  - reflexivity.
  - simpl. rewrite app_nil_r. reflexivity.
  - change (join sep (x :: y :: l)) with (x ++ sep ++ join sep (y :: l)).
    change (List.concat (x :: y :: l)) with (x ++ List.concat (y :: l)).
    rewrite !List.filter_app, Hsep, IH. reflexivity.
Qed.

Lemma filter_all (p : Z -> bool) (s : jsstring) :
  Forall (fun c => p c = true) s -> List.filter p s = s.
Proof.
  induction 1 as [|c s Hc _ IH]; simpl; [reflexivity|]. rewrite Hc, IH. reflexivity.
Qed.

Lemma remove_non_digits_digits (v : jsstring) :
  Forall (fun c => is_digit c = true) (remove_non_digits v).
Proof.
  apply Forall_forall. intros c Hc. apply list_elem_of_In in Hc.
  apply List.filter_In in Hc. apply Hc.
Qed.

Lemma digit_not_whitespace (c : Z) : is_digit c = true -> negb (is_js_whitespace c) = true.
Proof. unfold is_digit, is_js_whitespace, in_range. lia. Qed.

(** A formatted card number is read back as the digits it was made of. *)
Lemma formatCardNumber_digits (value : jsstring) :
  remove_non_digits (formatCardNumber value) = remove_non_digits value /\
  remove_whitespace (formatCardNumber value) = remove_non_digits value.
Proof.
  unfold formatCardNumber.
  pose proof (remove_non_digits_digits value) as Hd.
  pose proof (concat_match_groups_of_4 (remove_non_digits value)) as Hc.
  destruct (match_groups_of_4 (remove_non_digits value)) as [|g groups] eqn:E.
  - simpl in Hc. rewrite <- Hc. split; reflexivity.
  - split.
    + unfold remove_non_digits at 1. rewrite filter_concat_join by reflexivity.
      rewrite Hc. apply filter_all, Hd.
    + unfold remove_whitespace. rewrite filter_concat_join by reflexivity.
      rewrite Hc. apply filter_all.
      eapply Forall_impl; [exact Hd|]. apply digit_not_whitespace.
Qed.

Lemma join_groups_length (s : jsstring) :
  s <> [] ->
  Z.of_nat (List.length (join (js " ") (match_groups_of_4 s)))
  = Z.of_nat (List.length s) + (Z.of_nat (List.length s) - 1) / 4.
Proof.
  induction s as [|a|a b|a b c|a b c d l IH] using list_ind4; intros Hne;
    try reflexivity; [congruence|].
  change (match_groups_of_4 (a :: b :: c :: d :: l))
    with ([a; b; c; d] :: match_groups_of_4 l).
  destruct l as [|x l].
  - reflexivity.
  - specialize (IH ltac:(discriminate)).
    destruct (match_groups_of_4 (x :: l)) as [|g groups] eqn:E.
    { pose proof (concat_match_groups_of_4 (x :: l)) as Hc. rewrite E in Hc. discriminate. }
    change (join (js " ") ([a; b; c; d] :: g :: groups))
      with ([a; b; c; d] ++ js " " ++ join (js " ") (g :: groups)).
    rewrite !List.length_app.
    change (List.length [a; b; c; d]) with 4%nat.
    change (List.length (js " ")) with 1%nat.
    change (List.length (a :: b :: c :: d :: x :: l)) with (4 + List.length (x :: l))%nat.
    rewrite !Nat2Z.inj_add, IH.
    set (n := Z.of_nat (List.length (x :: l))).
    replace (Z.of_nat 4 + n - 1) with (n - 1 + 1 * 4) by lia.
    rewrite Z.div_add by lia. lia.
Qed.

Lemma elem_of_join (c : Z) (sep : jsstring) (l : list jsstring) :
  c ∈ join sep l -> c ∈ sep \/ c ∈ List.concat l.
Proof.
  induction l as [|x [|y l] IH]; intros Hc.
  - simpl in Hc. right. exact Hc.
  - simpl in *. rewrite app_nil_r. right. exact Hc.
  - change (join sep (x :: y :: l)) with (x ++ sep ++ join sep (y :: l)) in Hc.
    change (List.concat (x :: y :: l)) with (x ++ List.concat (y :: l)).
    rewrite !elem_of_app in Hc. rewrite elem_of_app.
    destruct Hc as [Hc | [Hc | Hc]]; [auto | auto |].
    destruct (IH Hc); auto.
Qed.

(** The groups joined by spaces, position by position: every fifth place
    holds a space, the others hold the characters in order. *)
Lemma join_groups_lookup (s : jsstring) (i : nat) :
  (i < List.length (join (js " ") (match_groups_of_4 s)))%nat ->
  join (js " ") (match_groups_of_4 s) !! i
  = if (i mod 5 =? 4)%nat then Some 32 else s !! (i - i / 5)%nat.
Proof.
  revert i.
  induction s as [|a|a b|a b c|a b c d l IH] using list_ind4; intros i Hi.
  - simpl in Hi. lia.
  - destruct i as [|i]; [reflexivity | simpl in Hi; lia].
  - destruct i as [|[|i]]; [reflexivity | reflexivity | simpl in Hi; lia].
  - destruct i as [|[|[|i]]]; [reflexivity | reflexivity | reflexivity | simpl in Hi; lia].
  - change (match_groups_of_4 (a :: b :: c :: d :: l))
      with ([a; b; c; d] :: match_groups_of_4 l) in *.
    destruct l as [|x l].
    + destruct i as [|[|[|[|i]]]]; try reflexivity. simpl in Hi. lia.
    + destruct (match_groups_of_4 (x :: l)) as [|g groups] eqn:E.
      { pose proof (concat_match_groups_of_4 (x :: l)) as Hc. rewrite E in Hc.
        discriminate. }
      change (join (js " ") ([a; b; c; d] :: g :: groups))
        with (a :: b :: c :: d :: 32 :: join (js " ") (g :: groups)) in *.
      destruct i as [|[|[|[|[|j]]]]]; try reflexivity.
      change (S (S (S (S (S j))))) with (5 + j)%nat.
      cbn [List.length] in Hi.
      change ((a :: b :: c :: d :: 32 :: join (js " ") (g :: groups)) !! (5 + j)%nat)
        with (join (js " ") (g :: groups) !! j).
      rewrite IH by lia.
      replace (5 + j)%nat with (j + 1 * 5)%nat by lia.
      rewrite Nat.Div0.mod_add, Nat.div_add by lia.
      destruct (j mod 5 =? 4)%nat; [reflexivity|].
      pose proof (Nat.Div0.mul_div_le j 5) as Hle.
      replace (j + 1 * 5 - (j / 5 + 1))%nat with (4 + (j - j / 5))%nat by lia.
      reflexivity.
Qed.

(** X13.  [formatCardNumber] keeps the digits of its input, in order, and
    puts a single space after every fourth digit that has a successor: the
    character at position [i] of the result is a space when
    [i mod 5 = 4] and the digit number [i - i div 5] otherwise, and [n >= 1]
    digits give [n + (n - 1) div 4] characters, so sixteen digits fill the
    field's nineteen.  Hence removing the white space of the result (what
    the form's [onChange] and [handleSave] do) gives back exactly the
    digits, and formatting is idempotent. *)
Theorem formatCardNumber_spec (value : jsstring) :
  let digits := remove_non_digits value in
  remove_whitespace (formatCardNumber value) = digits /\
  formatCardNumber (formatCardNumber value) = formatCardNumber value /\
  Forall (fun c => is_digit c = true \/ c = 32) (formatCardNumber value) /\
  (digits = [] -> formatCardNumber value = []) /\
  (digits <> [] ->
   Z.of_nat (List.length (formatCardNumber value))
   = Z.of_nat (List.length digits) + (Z.of_nat (List.length digits) - 1) / 4) /\
  (forall i : nat,
     (i < List.length (formatCardNumber value))%nat ->
     formatCardNumber value !! i
     = if (i mod 5 =? 4)%nat then Some 32 else digits !! (i - i / 5)%nat).
Proof.
  cbn zeta. destruct (formatCardNumber_digits value) as [Hd Hw].
  split; [exact Hw|]. split; [|split; [|split; [|split]]].
  5:{ intros i Hi. unfold formatCardNumber in *.
      destruct (match_groups_of_4 (remove_non_digits value)) as [|g groups] eqn:E.
      - pose proof (concat_match_groups_of_4 (remove_non_digits value)) as Hcat.
        rewrite E in Hcat. simpl in Hcat. rewrite <- Hcat in Hi. simpl in Hi. lia.
      - rewrite <- E in *. apply join_groups_lookup. exact Hi. }
  - unfold formatCardNumber at 1. rewrite Hd. reflexivity.
  - apply Forall_forall. intros c Hc. unfold formatCardNumber in Hc.
    pose proof (remove_non_digits_digits value) as Hdig.
    rewrite Forall_forall in Hdig.
    pose proof (concat_match_groups_of_4 (remove_non_digits value)) as Hcat.
    destruct (match_groups_of_4 (remove_non_digits value)) as [|g groups] eqn:E.
    + left. apply Hdig, Hc.
    + apply elem_of_join in Hc. rewrite Hcat in Hc. destruct Hc as [Hc | Hc].
      * right. apply list_elem_of_singleton in Hc. exact Hc.
      * left. apply Hdig, Hc.
  - intros H0. unfold formatCardNumber. rewrite H0. reflexivity.
  - intros Hne. unfold formatCardNumber.
    pose proof (concat_match_groups_of_4 (remove_non_digits value)) as Hcat.
    destruct (match_groups_of_4 (remove_non_digits value)) as [|g groups] eqn:E.
    + simpl in Hcat. congruence.
    + rewrite <- E. apply join_groups_length. exact Hne.
Qed.

Lemma formatExpiry_cases (value : jsstring) :
  formatExpiry value =
  match remove_non_digits value with
  | a :: b :: rest => [a; b; 47] ++ take 2 rest
  | cleaned => cleaned
  end.
Proof.
  unfold formatExpiry. destruct (remove_non_digits value) as [|a [|b rest]]; reflexivity.
Qed.

Lemma take_digits (n : nat) (s : jsstring) :
  Forall (fun c => is_digit c = true) s -> Forall (fun c => is_digit c = true) (take n s).
Proof. intros H. apply Forall_take. exact H. Qed.

(** The digits of a formatted expiry date: the first four of the input. *)
Lemma formatExpiry_digits (value : jsstring) :
  remove_non_digits (formatExpiry value) = take 4 (remove_non_digits value).
Proof.
  rewrite formatExpiry_cases.
  pose proof (remove_non_digits_digits value) as Hd.
  destruct (remove_non_digits value) as [|a [|b rest]].
  - reflexivity.
  - apply Forall_cons in Hd as [Ha _]. unfold remove_non_digits. simpl. rewrite Ha.
    reflexivity.
  - apply Forall_cons in Hd as [Ha Hd]. apply Forall_cons in Hd as [Hb Hd].
    unfold remove_non_digits. simpl. rewrite Ha, Hb. simpl.
    rewrite (filter_all is_digit (take 2 rest)) by (apply take_digits, Hd).
    reflexivity.
Qed.

(** X14.  [formatExpiry] keeps at most the first four digits of its input
    and puts a slash after the second: with two digits or more the result is
    the first two digits, the slash, and the third and fourth digit as far
    as there are any; with fewer it is the digits.  So the result has at
    most five characters, its digits are the first four digits of the input,
    and formatting is idempotent.  With exactly two digits the result ends
    in the slash, and deleting that slash and formatting again puts it
    back. *)
Theorem formatExpiry_spec (value : jsstring) :
  let digits := remove_non_digits value in
  ((2 <= List.length digits)%nat ->
   formatExpiry value = take 2 digits ++ js "/" ++ take 2 (drop 2 digits)) /\
  (List.length (formatExpiry value) <= 5)%nat /\
  remove_non_digits (formatExpiry value) = take 4 digits /\
  formatExpiry (formatExpiry value) = formatExpiry value /\
  ((List.length digits < 2)%nat -> formatExpiry value = digits) /\
  (List.length digits = 2%nat ->
   formatExpiry value = digits ++ js "/" /\
   formatExpiry (List.removelast (formatExpiry value)) = formatExpiry value).
Proof.
  cbn zeta. pose proof (formatExpiry_digits value) as Hdig.
  pose proof (remove_non_digits_digits value) as Hd.
  split.
  { intros H2. rewrite formatExpiry_cases.
    destruct (remove_non_digits value) as [|a [|b rest]]; simpl in H2; try lia.
    reflexivity. }
  split; [|split; [exact Hdig|split; [|split]]].
  - rewrite formatExpiry_cases.
    destruct (remove_non_digits value) as [|a [|b rest]]; simpl; try lia.
    rewrite length_take. lia.
  - rewrite (formatExpiry_cases (formatExpiry value)), Hdig, formatExpiry_cases.
    destruct (remove_non_digits value) as [|a [|b [|c [|d rest]]]]; reflexivity.
  - intros Hlt. rewrite formatExpiry_cases.
    destruct (remove_non_digits value) as [|a [|b rest]]; simpl in *; try reflexivity; lia.
  - intros H2. destruct (remove_non_digits value) as [|a [|b [|c rest]]] eqn:E;
      simpl in H2; try discriminate.
    assert (Hf : formatExpiry value = [a; b; 47]).
    { rewrite formatExpiry_cases, E. reflexivity. }
    split; [exact Hf|]. rewrite Hf. simpl List.removelast.
    apply Forall_cons in Hd as [Ha Hd]. apply Forall_cons in Hd as [Hb _].
    rewrite formatExpiry_cases. unfold remove_non_digits. simpl. rewrite Ha, Hb.
    reflexivity.
Qed.

Lemma slice_last_app (n : nat) (p t : jsstring) :
  List.length t = n -> slice_last n (p ++ t) = t.
Proof.
  intros <-. unfold slice_last. rewrite List.length_app.
  replace (List.length p + List.length t - List.length t)%nat with (List.length p) by lia.
  apply drop_app_length.
Qed.

(** X15.  The preview stored in the clear is the mask followed by the last
    four characters of the card number without its white space, or by all
    of them when there are fewer: the number splits into a hidden part and
    a shown part of [min(4, n)] characters, [n] being its length, and the
    preview is the mask and the shown part.  So the preview has
    [15 + min(4, n)] characters, a number of four characters or fewer is
    stored in the clear in full, and two numbers that end in the same four
    characters have the same preview. *)
Theorem maskedPreview_reveals_last_four (cardNumber cardNumber' : jsstring) :
  let n := List.length (remove_whitespace cardNumber) in
  (exists hidden shown,
     remove_whitespace cardNumber = hidden ++ shown /\
     List.length shown = Nat.min 4 n /\
     maskedPreview cardNumber = js "**** **** **** " ++ shown) /\
  List.length (maskedPreview cardNumber) = (15 + Nat.min 4 n)%nat /\
  ((n <= 4)%nat ->
   maskedPreview cardNumber = js "**** **** **** " ++ remove_whitespace cardNumber) /\
  (forall hidden hidden' last4,
     List.length last4 = 4%nat ->
     remove_whitespace cardNumber = hidden ++ last4 ->
     remove_whitespace cardNumber' = hidden' ++ last4 ->
     maskedPreview cardNumber = maskedPreview cardNumber').
Proof.
  cbn zeta. unfold maskedPreview. split; [|split; [|split]].
  - exists (take (List.length (remove_whitespace cardNumber) - 4)
              (remove_whitespace cardNumber)),
           (drop (List.length (remove_whitespace cardNumber) - 4)
              (remove_whitespace cardNumber)).
    split; [symmetry; apply take_drop|]. split; [|reflexivity].
    rewrite length_drop. lia.
  - rewrite List.length_app. unfold slice_last. rewrite length_drop.
    change (List.length (js "**** **** **** ")) with 15%nat. lia.
  - intros Hn. unfold slice_last.
    replace (List.length (remove_whitespace cardNumber) - 4)%nat with 0%nat by lia.
    reflexivity.
  - intros hidden hidden' last4 H4 -> ->.
    rewrite !slice_last_app by exact H4. reflexivity.
Qed.

(** The run: a sixteen-digit number as typed, as shown, as stored. *)
Lemma card_form_run :
  formatCardNumber (js "4111x1111 1111-1111") = js "4111 1111 1111 1111" /\
  remove_whitespace (js "4111 1111 1111 1111") = js "4111111111111111" /\
  maskedPreview (js "4111 1111 1111 1234") = js "**** **** **** 1234" /\
  formatExpiry (js "1227") = js "12/27" /\
  formatExpiry (js "12") = js "12/" /\
  formatExpiry (js "1") = js "1".
Proof. vm_compute. auto 10. Qed.

(** ** [Passwords], [Notes]: tags through the edit dialog *)

Lemma trimStart_hd (s : jsstring) : is_js_whitespace (List.hd 0 (trimStart s)) = false.
Proof.
  induction s as [|c s IH]; simpl; [reflexivity|].
  destruct (is_js_whitespace c) eqn:E; [exact IH | simpl; exact E].
Qed.

Lemma trimStart_id (s : jsstring) :
  is_js_whitespace (List.hd 0 s) = false -> trimStart s = s.
Proof. destruct s as [|c s]; simpl; [reflexivity|]. intros ->. reflexivity. Qed.

Lemma trimStart_suffix (s : jsstring) : exists p, s = p ++ trimStart s.
Proof.
  induction s as [|c s [p Hp]]; simpl.
  - exists []. reflexivity.
  - destruct (is_js_whitespace c).
    + exists (c :: p). simpl. rewrite <- Hp. reflexivity.
    + exists []. reflexivity.
Qed.

Lemma trimStart_Forall (P : Z -> Prop) (s : jsstring) :
  Forall P s -> Forall P (trimStart s).
Proof.
  intros H. destruct (trimStart_suffix s) as [p Hp]. rewrite Hp in H.
  apply Forall_app in H. apply H.
Qed.

Lemma trim_Forall (P : Z -> Prop) (s : jsstring) : Forall P s -> Forall P (trim s).
Proof.
  intros H. unfold trim, trimEnd.
  apply List.Forall_rev, trimStart_Forall, List.Forall_rev, trimStart_Forall, H.
Qed.

Lemma hd_app_nonempty (a b : jsstring) : a <> [] -> List.hd 0 (a ++ b) = List.hd 0 a.
Proof. destruct a; [congruence | reflexivity]. Qed.

(** What [trim] returns has no white space at either end. *)
Lemma trim_ends (s : jsstring) :
  is_js_whitespace (List.hd 0 (trim s)) = false /\
  is_js_whitespace (List.hd 0 (List.rev (trim s))) = false.
Proof.
  unfold trim, trimEnd. split.
  - destruct (trimStart_suffix (List.rev (trimStart s))) as [p Hp].
    destruct (trimStart (List.rev (trimStart s))) as [|k ks] eqn:E; [reflexivity|].
    apply (f_equal (@List.rev Z)) in Hp.
    rewrite List.rev_involutive, List.rev_app_distr in Hp.
    pose proof (trimStart_hd s) as Hh. rewrite Hp in Hh.
    rewrite hd_app_nonempty in Hh; [exact Hh|].
    simpl. destruct (List.rev ks); discriminate.
  - rewrite List.rev_involutive. apply trimStart_hd.
Qed.

Lemma trim_id (t : jsstring) :
  is_js_whitespace (List.hd 0 t) = false ->
  is_js_whitespace (List.hd 0 (List.rev t)) = false ->
  trim t = t.
Proof.
  intros H1 H2. unfold trim, trimEnd.
  rewrite (trimStart_id t H1), (trimStart_id _ H2). apply List.rev_involutive.
Qed.

Lemma split_on_whole (sep : Z) (a : jsstring) :
  Forall (fun c => c <> sep) a -> split_on sep a = [a].
Proof.
  induction 1 as [|c a Hc _ IH]; simpl; [reflexivity|].
  apply Z.eqb_neq in Hc. rewrite Hc, IH. reflexivity.
Qed.

Lemma split_on_app (sep : Z) (a b : jsstring) :
  Forall (fun c => c <> sep) a ->
  split_on sep (a ++ sep :: b) = a :: split_on sep b.
Proof.
  induction 1 as [|c a Hc _ IH]; simpl.
  - rewrite Z.eqb_refl. reflexivity.
  - apply Z.eqb_neq in Hc. rewrite Hc, IH. reflexivity.
Qed.

Lemma split_on_pieces (sep : Z) (s : jsstring) :
  Forall (Forall (fun c => c <> sep)) (split_on sep s).
Proof.
  induction s as [|c s IH]; simpl.
  - apply Forall_cons_2; [apply Forall_nil_2 | apply Forall_nil_2].
  - destruct (Z.eqb_spec c sep) as [-> | Hne].
    + apply Forall_cons_2; [apply Forall_nil_2 | exact IH].
    + destruct (split_on sep s) as [|cur more].
      * apply Forall_cons_2; [|apply Forall_nil_2].
        apply Forall_cons_2; [exact Hne | apply Forall_nil_2].
      * apply Forall_cons in IH as [Hcur Hmore].
        apply Forall_cons_2; [|exact Hmore].
        apply Forall_cons_2; [exact Hne | exact Hcur].
Qed.

Lemma clean_tag_spec (t : jsstring) :
  clean_tag t = true <->
  t <> [] /\ Forall (fun c => c <> 44) t /\
  is_js_whitespace (List.hd 0 t) = false /\
  is_js_whitespace (List.hd 0 (List.rev t)) = false.
Proof.
  unfold clean_tag. rewrite !andb_true_iff, !negb_true_iff, forallb_forall.
  split.
  - intros [[[Hne Hc] H1] H2]. split; [|split; [|split; assumption]].
    + intros ->. discriminate.
    + apply Forall_forall. intros c Hin. apply list_elem_of_In in Hin.
      specialize (Hc c Hin). apply negb_true_iff, Z.eqb_neq in Hc. exact Hc.
  - intros (Hne & Hc & H1 & H2). split; [split; [split|]|]; try assumption.
    + destruct t; [congruence | reflexivity].
    + intros c Hin. apply negb_true_iff, Z.eqb_neq.
      rewrite Forall_forall in Hc. apply Hc, list_elem_of_In, Hin.
Qed.

(** The parser on what the dialog shows for clean tags, behind an optional
    blank left over from the separator. *)
Lemma parse_shown_tags (t : jsstring) (rest : list jsstring) (blank : jsstring) :
  blank = [] \/ blank = [32] ->
  Forall (fun t => clean_tag t = true) (t :: rest) ->
  List.filter (fun t => negb (str_eqb t []))
    (List.map trim (split_on 44 (blank ++ join (js ", ") (t :: rest))))
  = t :: rest.
Proof.
  revert t blank. induction rest as [|t' rest IH]; intros t blank Hb Hclean.
  - apply Forall_cons in Hclean as [Ht _].
    apply clean_tag_spec in Ht as (Hne & Hc & H1 & H2).
    assert (Hnc : Forall (fun c => c <> 44) (blank ++ t)).
    { apply Forall_app_2; [|exact Hc].
      destruct Hb as [-> | ->];
        [apply Forall_nil_2 | apply Forall_cons_2; [discriminate | apply Forall_nil_2]]. }
    simpl join. rewrite split_on_whole by exact Hnc. simpl.
    assert (Htrim : trim (blank ++ t) = t).
    { destruct Hb as [-> | ->]; [apply trim_id; assumption|].
      unfold trim. simpl trimStart. fold (trim t). apply trim_id; assumption. }
    rewrite Htrim. destruct t; [congruence | reflexivity].
  - apply Forall_cons in Hclean as [Ht Hrest]. pose proof Ht as Ht'.
    apply clean_tag_spec in Ht' as (Hne & Hc & H1 & H2).
    assert (Hnc : Forall (fun c => c <> 44) (blank ++ t)).
    { apply Forall_app_2; [|exact Hc].
      destruct Hb as [-> | ->];
        [apply Forall_nil_2 | apply Forall_cons_2; [discriminate | apply Forall_nil_2]]. }
    change (join (js ", ") (t :: t' :: rest))
      with (t ++ 44 :: ([32] ++ join (js ", ") (t' :: rest))).
    rewrite app_assoc, split_on_app by exact Hnc.
    cbn [List.map List.filter].
    assert (Htrim : trim (blank ++ t) = t).
    { destruct Hb as [-> | ->]; [apply trim_id; assumption|].
      unfold trim. simpl trimStart. fold (trim t). apply trim_id; assumption. }
    rewrite Htrim.
    assert (Hnon : negb (str_eqb t []) = true) by (destruct t; [congruence | reflexivity]).
    rewrite Hnon. f_equal. apply IH; [right; reflexivity | exact Hrest].
Qed.

Lemma parse_tags_clean (text : jsstring) :
  Forall (fun t => clean_tag t = true) (parse_tags text).
Proof.
  apply Forall_forall. intros t Ht. unfold parse_tags in Ht.
  apply list_elem_of_In, List.filter_In in Ht as [Hin Hne].
  apply List.in_map_iff in Hin as (x & <- & Hx).
  apply clean_tag_spec. destruct (trim_ends x) as [H1 H2].
  split; [|split; [|split; assumption]].
  - intros E. rewrite E in Hne. discriminate.
  - apply trim_Forall.
    pose proof (split_on_pieces 44 text) as Hp. rewrite Forall_forall in Hp.
    apply Hp, list_elem_of_In, Hx.
Qed.

Lemma parse_show_tags (tags : list jsstring) :
  Forall (fun t => clean_tag t = true) tags -> parse_tags (show_tags tags) = tags.
Proof.
  intros H. destruct tags as [|t rest]; [reflexivity|].
  unfold parse_tags, show_tags.
  apply (parse_shown_tags t rest []); [left; reflexivity | exact H].
Qed.

(** X16.  Tags survive the edit dialog: every tag that [handleSave] parses
    out of the form text is non-empty, has no comma and no white space at
    either end; clean tags shown by [handleOpenDialog] (joined with ", ")
    and parsed again are the same tags in the same order; hence opening an
    entry and saving it without touching the field keeps its tags. *)
Theorem tags_survive_edit_dialog (text : jsstring) :
  Forall (fun t => clean_tag t = true) (parse_tags text) /\
  (forall tags, Forall (fun t => clean_tag t = true) tags ->
                parse_tags (show_tags tags) = tags) /\
  parse_tags (show_tags (parse_tags text)) = parse_tags text.
Proof.
  split; [apply parse_tags_clean|]. split; [apply parse_show_tags|].
  apply parse_show_tags, parse_tags_clean.
Qed.

Lemma tags_run :
  parse_tags (js " work, ,bank ,, two words ") = [js "work"; js "bank"; js "two words"] /\
  show_tags [js "work"; js "bank"; js "two words"] = js "work, bank, two words" /\
  parse_tags [] = [].
Proof. vm_compute. auto. Qed.

(** X17.  [toggleReveal] flips the membership of the given id and of no
    other, and toggling the same id twice gives back the set of revealed
    entries. *)
Theorem toggleReveal_involutive (id : jsstring) (prev : gset jsstring) :
  (id ∈ toggleReveal id prev <-> id ∉ prev) /\
  (forall other, other <> id -> (other ∈ toggleReveal id prev <-> other ∈ prev)) /\
  toggleReveal id (toggleReveal id prev) = prev.
Proof.
  unfold toggleReveal. destruct (decide (id ∈ prev)) as [Hin | Hnin].
  - assert (Hout : id ∉ prev ∖ {[id]}).
    { rewrite elem_of_difference, elem_of_singleton. tauto. }
    split; [tauto|]. split.
    + intros other Hne. rewrite elem_of_difference, elem_of_singleton. tauto.
    + destruct (decide (id ∈ prev ∖ {[id]})) as [H | _]; [contradiction|].
      apply set_eq. intros x. rewrite elem_of_union, elem_of_difference, elem_of_singleton.
      destruct (decide (x = id)) as [-> | Hx]; tauto.
  - assert (Hnow : id ∈ prev ∪ {[id]}).
    { rewrite elem_of_union, elem_of_singleton. tauto. }
    split; [tauto|]. split.
    + intros other Hne. rewrite elem_of_union, elem_of_singleton. tauto.
    + destruct (decide (id ∈ prev ∪ {[id]})) as [_ | H]; [|contradiction].
      apply set_eq. intros x.
      rewrite elem_of_difference, elem_of_union, elem_of_singleton.
      destruct (decide (x = id)) as [-> | Hx]; tauto.
Qed.

(** ** [Todos]: toggling and deleting items *)

Lemma toggle_item_absent (itemId : jsstring) (items : list TodoItem) :
  Forall (fun item => item_id item <> itemId) items -> toggle_item itemId items = items.
Proof.
  unfold toggle_item. induction 1 as [|item items Hne _ IH]; simpl; [reflexivity|].
  rewrite (str_eqb_neq _ _ Hne). f_equal. exact IH.
Qed.

(** X18.  Toggling an item keeps the number, order, ids and texts of the
    items and changes the [completed] flag of exactly the items with the
    given id; toggling twice gives the items back; an id that no item has
    changes nothing; and deleting an item after toggling it is deleting
    it. *)
Theorem toggle_item_spec (itemId : jsstring) (items : list TodoItem) :
  List.map item_id (toggle_item itemId items) = List.map item_id items /\
  List.map item_text (toggle_item itemId items) = List.map item_text items /\
  (forall i item, items !! i = Some item ->
     exists item', toggle_item itemId items !! i = Some item' /\
       item_completed item' =
       (if str_eqb (item_id item) itemId then negb (item_completed item)
        else item_completed item)) /\
  toggle_item itemId (toggle_item itemId items) = items /\
  (Forall (fun item => item_id item <> itemId) items -> toggle_item itemId items = items) /\
  delete_item itemId (toggle_item itemId items) = delete_item itemId items.
Proof.
  split; [|split; [|split; [|split; [|split]]]].
  - unfold toggle_item. rewrite List.map_map. apply List.map_ext. intros item.
    destruct (str_eqb (item_id item) itemId); reflexivity.
  - unfold toggle_item. rewrite List.map_map. apply List.map_ext. intros item.
    destruct (str_eqb (item_id item) itemId); reflexivity.
  - intros i item Hi. unfold toggle_item.
    change (@List.map TodoItem TodoItem) with (@fmap list _ TodoItem TodoItem).
    rewrite list_lookup_fmap, Hi. simpl. eexists. split; [reflexivity|].
    destruct (str_eqb (item_id item) itemId); reflexivity.
  - unfold toggle_item. rewrite List.map_map.
    rewrite <- (List.map_id items) at 2. apply List.map_ext. intros [id text done].
    simpl. destruct (str_eqb id itemId) eqn:E; simpl; [|rewrite E; reflexivity].
    rewrite E, negb_involutive. reflexivity.
  - apply toggle_item_absent.
  - unfold delete_item, toggle_item.
    induction items as [|[id text done] items IH]; [reflexivity|].
    simpl. destruct (str_eqb id itemId) eqn:E; simpl; rewrite E; simpl.
    + exact IH.
    + f_equal. exact IH.
Qed.

(** ** [signUp]: what a failed registration leaves behind *)

(** X19.  [signUp] writes the key and the unlocked flag only when it
    returns; when it throws they are as before.  When the identity service
    refuses the account, nothing changes.  When the account was created and
    the verifier cannot be generated or the store cannot be reached, the
    call throws with the new user signed in, loading over and no profile
    written: with a locked vault the unlock screen is shown, and as this
    user has no profile no master password unlocks, whatever the store
    answers later.  When [signUp] returns, the new user is signed in, the
    profile is stored with the salt, the verifier and the KDF parameters
    that [deriveKey] uses, and the vault is unlocked with the derived
    key. *)
Theorem signUp_outcome `{WC : WebCrypto}
    (B : Backend) (rnd : nat -> byte) (email password masterPassword : jsstring)
    (s : Session) :
  let r := (signUp B rnd email password masterPassword s).1 in
  let s' := (signUp B rnd email password masterPassword s).2 in
  (forall e, r = Throw e ->
     encryptionKey s' = encryptionKey s /\ isUnlocked s' = isUnlocked s) /\
  (forall e, createUserWithEmailAndPassword B email password = Throw e ->
     r = Throw e /\ s' = s) /\
  (forall u, createUserWithEmailAndPassword B email password = Normal u ->
     (exists e, generateVerifier masterPassword (generateSalt rnd) = Throw e)
     \/ firestore_reachable B = false ->
     (exists e, r = Throw e) /\
     s' = mk_Session (Some u) false (encryptionKey s) (isUnlocked s) (profiles s)
            (console_errors s) /\
     (isUnlocked s = false -> AppLayout s' = UnlockVaultScreen) /\
     (profiles s !! uid u = None ->
      forall B' candidate, (unlockVault B' candidate s').1 = Normal false)) /\
  (r = Normal tt ->
   exists u v salt64 key,
     createUserWithEmailAndPassword B email password = Normal u /\
     generateVerifier masterPassword (generateSalt rnd) = Normal v /\
     arrayBufferToBase64 (generateSalt rnd) = Normal salt64 /\
     deriveKey masterPassword (generateSalt rnd) = Normal key /\
     s' = mk_Session (Some u) false (Some key) true
            (<[uid u := mk_ProfileDoc (before_at email) email (now_iso B)
                          (Some (mk_EncryptionProfile salt64 v (js "PBKDF2")
                                   PBKDF2_ITERATIONS (js "SHA-256")))]> (profiles s))
            (console_errors s)).
Proof.
  cbn zeta.
  assert (Hstuck : forall u,
             profiles s !! uid u = None ->
             forall B' candidate,
               (unlockVault B' candidate
                  (mk_Session (Some u) false (encryptionKey s) (isUnlocked s) (profiles s)
                     (console_errors s))).1 = Normal false).
  { intros u Hp B' candidate.
    set (s1 := mk_Session (Some u) false (encryptionKey s) (isUnlocked s) (profiles s)
                 (console_errors s)).
    assert (Hf : unlock_failure B' candidate s1).
    { destruct (firestore_reachable B') eqn:Hr.
      - apply (profile_missing B' candidate s1 u); [reflexivity | exact Hr | exact Hp].
      - apply (store_unreachable B' candidate s1 u); [reflexivity | exact Hr]. }
    destruct (unlockVault_failure B' candidate s1 Hf) as (s2 & E & _).
    rewrite E. reflexivity. }
  unfold signUp, onAuthStateChanged_callback. run_action.
  destruct (createUserWithEmailAndPassword B email password) as [u|e0] eqn:Hc; simpl.
  2:{ split; [auto|]. split; [intros e [= <-]; auto|].
      split; [intros u [=] | discriminate]. }
  destruct (generateVerifier masterPassword (generateSalt rnd)) as [v|e1] eqn:Hg; simpl.
  2:{ split; [auto|]. split; [intros e [=]|]. split; [|discriminate].
      intros u' [= <-] _. split; [eauto|]. split; [reflexivity|].
      split; [intros Hl; unfold AppLayout; simpl; rewrite Hl; reflexivity|].
      apply Hstuck. }
  destruct (arrayBufferToBase64 (generateSalt rnd)) as [salt64|e2] eqn:H64; simpl.
  2:{ rewrite arrayBufferToBase64_value in H64. discriminate. }
  destruct (firestore_reachable B) eqn:Hr; simpl.
  2:{ split; [auto|]. split; [intros e [=]|]. split; [|discriminate].
      intros u' [= <-] _. split; [eauto|]. split; [reflexivity|].
      split; [intros Hl; unfold AppLayout; simpl; rewrite Hl; reflexivity|].
      apply Hstuck. }
  assert (Hk : exists key, deriveKey masterPassword (generateSalt rnd) = Normal key).
  { unfold generateVerifier in Hg.
    destruct (deriveKey masterPassword (generateSalt rnd)) as [key|]; [eauto | discriminate]. }
  destruct Hk as [key Hk]. rewrite Hk. simpl.
  split; [discriminate|]. split; [intros e [=]|].
  split; [intros u' _ [[e He] | Hf]; discriminate|].
  intros _. exists u, v, salt64, key. auto 10.
Qed.

(** The run: the store cannot be reached while alice registers.  The call
    throws; alice is signed in and the vault is locked, the unlock screen is
    shown, and her master password does not unlock once the store is back,
    because no profile was written. *)
Lemma signUp_run :
  let offline := mk_Backend (createUserWithEmailAndPassword demo_backend)
                   (signInWithEmailAndPassword demo_backend) (signOut demo_backend)
                   false (now_iso demo_backend) in
  let out := @signUp demo_crypto offline demo_rnd (js "alice@example.org")
               (js "login-password") (js "CorrectHorse1234!")
               (@initial_session demo_crypto ∅) in
  out.1 = Throw FirebaseError /\
  user out.2 = Some alice /\
  loading out.2 = false /\ encryptionKey out.2 = None /\ isUnlocked out.2 = false /\
  profiles out.2 = ∅ /\
  @AppLayout demo_crypto out.2 = UnlockVaultScreen /\
  (@unlockVault demo_crypto demo_backend (js "CorrectHorse1234!") out.2).1 = Normal false.
Proof. vm_compute. auto 10. Qed.

(** ** [JSON.stringify] gives text that encryption returns unchanged *)

Lemma isWellFormed_app (a b : jsstring) :
  isWellFormed a = true -> isWellFormed b = true -> isWellFormed (a ++ b) = true.
Proof.
  intros Ha Hb. induction a as [|x|x y l IH0 IH1] using list_ind2.
  - exact Hb.
  - simpl in Ha. simpl.
    apply andb_true_iff in Ha as [Hx Ha]. rewrite Hx. simpl.
    destruct (is_lead x); [discriminate|].
    apply andb_true_iff in Ha as [Hn _]. rewrite Hn.
    destruct b; exact Hb.
  - cbn [isWellFormed] in Ha. change ((x :: y :: l) ++ b) with (x :: y :: (l ++ b)).
    cbn [isWellFormed].
    apply andb_true_iff in Ha as [Hx Ha]. rewrite Hx. simpl.
    destruct (is_lead x).
    + apply andb_true_iff in Ha as [Hy Hl]. rewrite Hy. simpl. apply IH0, Hl.
    + apply andb_true_iff in Ha as [Hn Hyl]. rewrite Hn. simpl.
      apply (IH1 Hyl).
Qed.

Lemma isWellFormed_plain (s : jsstring) :
  Forall (fun c => 0 <= c < 0xD800) s -> isWellFormed s = true.
Proof.
  induction 1 as [|c s Hc _ IH]; [reflexivity|].
  cbn [isWellFormed].
  assert (H1 : is_code_unit c = true) by (unfold is_code_unit; lia).
  assert (H2 : is_lead c = false) by (unfold is_lead; lia).
  assert (H3 : is_trail c = false) by (unfold is_trail; lia).
  rewrite H1, H2, H3, IH. reflexivity.
Qed.

Lemma hex_digit_plain (v : Z) : 0 <= v < 16 -> 0 <= hex_digit v < 0xD800.
Proof. unfold hex_digit. intros H. destruct (v <? 10) eqn:E; lia. Qed.

Lemma UnicodeEscape_wellFormed (c : Z) : isWellFormed (UnicodeEscape c) = true.
Proof.
  apply isWellFormed_plain. unfold UnicodeEscape.
  repeat (apply Forall_cons_2;
          [first [lia | apply hex_digit_plain, Z.mod_pos_bound; lia]|]).
  apply Forall_nil_2.
Qed.

Lemma quote_unit_wellFormed (c : Z) :
  is_code_unit c = true -> is_lead c = false -> is_trail c = false ->
  isWellFormed (quote_unit c) = true.
Proof.
  intros Hc Hl Ht. unfold quote_unit.
  repeat match goal with
         | |- context [if ?b then _ else _] => destruct b eqn:?; [reflexivity|]
         end.
  destruct (c <? 0x20); [apply UnicodeEscape_wellFormed|].
  simpl. rewrite Hc, Hl, Ht. reflexivity.
Qed.

Lemma quote_code_points_cons2 (a b : Z) (l : jsstring) :
  quote_code_points (a :: b :: l) =
  if is_lead a then
    if is_trail b then a :: b :: quote_code_points l
    else UnicodeEscape a ++ quote_code_points (b :: l)
  else if is_trail a then UnicodeEscape a ++ quote_code_points (b :: l)
  else quote_unit a ++ quote_code_points (b :: l).
Proof. reflexivity. Qed.

Lemma quote_code_points_wellFormed (s : jsstring) :
  Forall (fun u => is_code_unit u = true) s -> isWellFormed (quote_code_points s) = true.
Proof.
  induction s as [|a|a b l IH0 IH1] using list_ind2; intros H.
  - reflexivity.
  - apply Forall_cons in H as [Ha _]. cbn [quote_code_points].
    destruct (is_lead a) eqn:E1; [apply UnicodeEscape_wellFormed|].
    destruct (is_trail a) eqn:E2; rewrite app_nil_r;
      [apply UnicodeEscape_wellFormed | apply quote_unit_wellFormed; assumption].
  - apply Forall_cons in H as [Ha H]. pose proof H as Hbl.
    apply Forall_cons in H as [Hb Hl].
    rewrite quote_code_points_cons2.
    destruct (is_lead a) eqn:E1.
    + destruct (is_trail b) eqn:E2.
      * cbn [isWellFormed]. rewrite Ha, E1, E2. simpl. apply IH0, Hl.
      * apply isWellFormed_app; [apply UnicodeEscape_wellFormed | apply IH1, Hbl].
    + destruct (is_trail a) eqn:E3.
      * apply isWellFormed_app; [apply UnicodeEscape_wellFormed | apply IH1, Hbl].
      * apply isWellFormed_app; [apply quote_unit_wellFormed; assumption | apply IH1, Hbl].
Qed.

Lemma QuoteJSONString_wellFormed (s : jsstring) :
  Forall (fun u => is_code_unit u = true) s -> isWellFormed (QuoteJSONString s) = true.
Proof.
  intros H. unfold QuoteJSONString.
  apply isWellFormed_app; [reflexivity|].
  apply isWellFormed_app; [apply quote_code_points_wellFormed, H | reflexivity].
Qed.

Lemma join_wellFormed (sep : jsstring) (l : list jsstring) :
  isWellFormed sep = true -> Forall (fun x => isWellFormed x = true) l ->
  isWellFormed (join sep l) = true.
Proof.
  intros Hsep H. induction H as [|x l Hx Hl IH]; [reflexivity|].
  destruct l as [|y l]; [exact Hx|].
  change (join sep (x :: y :: l)) with (x ++ sep ++ join sep (y :: l)).
  apply isWellFormed_app; [exact Hx|]. apply isWellFormed_app; [exact Hsep | exact IH].
Qed.

Lemma JSON_stringify_strings_wellFormed (fields : list (jsstring * jsstring)) :
  Forall (fun kv => Forall (fun u => is_code_unit u = true) kv.1
                    /\ Forall (fun u => is_code_unit u = true) kv.2) fields ->
  isWellFormed (JSON_stringify_strings fields) = true /\
  starts_with_bom (JSON_stringify_strings fields) = false.
Proof.
  intros H. split; [|reflexivity]. unfold JSON_stringify_strings.
  apply isWellFormed_app; [reflexivity|].
  apply isWellFormed_app; [|reflexivity].
  apply join_wellFormed; [reflexivity|].
  induction H as [|[k v] fields [Hk Hv] _ IH]; cbn [List.map]; [apply Forall_nil_2|].
  apply Forall_cons_2; [|exact IH].
  apply isWellFormed_app; [exact (QuoteJSONString_wellFormed k Hk)|].
  apply isWellFormed_app; [reflexivity | exact (QuoteJSONString_wellFormed v Hv)].
Qed.

Lemma js_code_units (s : string) : Forall (fun u => is_code_unit u = true) (js s).
Proof.
  unfold js. induction (list_ascii_of_string s) as [|a l IH]; simpl;
    [apply Forall_nil_2|].
  apply Forall_cons_2; [|exact IH].
  pose proof (N_ascii_bounded a). unfold is_code_unit. lia.
Qed.

Lemma filter_code_units (p : Z -> bool) (s : jsstring) :
  Forall (fun u => is_code_unit u = true) s ->
  Forall (fun u => is_code_unit u = true) (List.filter p s).
Proof.
  intros H. apply Forall_forall. intros c Hc. apply list_elem_of_In, List.filter_In in Hc.
  rewrite Forall_forall in H. apply H, list_elem_of_In, Hc.
Qed.

(** X22.  What [Passwords.handleSave] and [Vault.handleSave] encrypt comes
    back unchanged: for all field contents, unpaired surrogates and a
    leading U+FEFF included, if [encryptData(JSON.stringify({...}), key)]
    returns [c] then [decryptData(c.ciphertext, c.iv, key)] returns exactly
    the JSON text, because [JSON.stringify] escapes unpaired surrogates and
    starts the text with a brace. *)
Theorem sensitiveData_roundtrip `{WC : WebCrypto}
    (f1 f2 f3 f4 : jsstring) (K : CryptoKey) (rnd : nat -> byte) :
  Forall (fun u => is_code_unit u = true) (f1 ++ f2 ++ f3 ++ f4) ->
  (forall c, encryptData (password_sensitiveData f1 f2 f3 f4) K rnd = Normal c ->
             decryptData (ciphertext c) (iv c) K
             = Normal (password_sensitiveData f1 f2 f3 f4)) /\
  (forall c, encryptData (card_sensitiveData f1 f2 f3 f4) K rnd = Normal c ->
             decryptData (ciphertext c) (iv c) K
             = Normal (card_sensitiveData f1 f2 f3 f4)).
Proof.
  intros H. apply Forall_app in H as [H1 H]. apply Forall_app in H as [H2 H].
  apply Forall_app in H as [H3 H4].
  assert (Hround : forall fields,
             Forall (fun kv => Forall (fun u => is_code_unit u = true) kv.1
                               /\ Forall (fun u => is_code_unit u = true) kv.2) fields ->
             forall c, encryptData (JSON_stringify_strings fields) K rnd = Normal c ->
                       decryptData (ciphertext c) (iv c) K
                       = Normal (JSON_stringify_strings fields)).
  { intros fields Hf c Hc.
    destruct (JSON_stringify_strings_wellFormed fields Hf) as [Hw Hb].
    rewrite (decryptData_encryptData_value _ K rnd c (isWellFormed_code_units _ Hw) Hc).
    rewrite strip_bom_to_scalars by assumption.
    rewrite of_scalars_to_scalars by exact Hw. reflexivity. }
  split; intros c Hc; apply Hround; try exact Hc;
    repeat (apply Forall_cons_2;
            [split; simpl; first [apply js_code_units | assumption
                                  | apply filter_code_units; assumption]|]);
    apply Forall_nil_2.
Qed.

Lemma sensitiveData_roundtrip_witness :
  let u := [0xFEFF; 97] in let p := [0xD800; 34; 92; 10] in
  let url := js "https://example.org" in let notes := [] in
  Forall (fun u => is_code_unit u = true) (u ++ p ++ url ++ notes) /\
  (forall c, @encryptData demo_crypto (password_sensitiveData u p url notes) demo_key demo_rnd
             = Normal c ->
             @decryptData demo_crypto (ciphertext c) (iv c) demo_key
             = Normal (password_sensitiveData u p url notes)) /\
  (forall c, @encryptData demo_crypto (card_sensitiveData u p url notes) demo_key demo_rnd
             = Normal c ->
             @decryptData demo_crypto (ciphertext c) (iv c) demo_key
             = Normal (card_sensitiveData u p url notes)).
Proof.
  cbn zeta.
  assert (H : Forall (fun u => is_code_unit u = true)
                ([0xFEFF; 97] ++ [0xD800; 34; 92; 10] ++ js "https://example.org" ++ [])).
  { apply Forall_forall. intros c Hc. apply list_elem_of_In in Hc.
    vm_compute in Hc. unfold is_code_unit. repeat (destruct Hc as [<- | Hc]; [reflexivity|]).
    destruct Hc. }
  split; [exact H|].
  exact (@sensitiveData_roundtrip demo_crypto [0xFEFF; 97] [0xD800; 34; 92; 10]
           (js "https://example.org") [] demo_key demo_rnd H).
Defined.

(** The run: the text for a user name that begins with U+FEFF and a
    password made of an unpaired surrogate, a quote, a backslash and a line
    feed. *)
Lemma sensitiveData_run :
  password_sensitiveData [0xFEFF; 97] [0xD800; 34; 92; 10] (js "x") []
  = js "{" ++ [34] ++ js "username" ++ [34; 58; 34; 0xFEFF; 97; 34; 44; 34]
    ++ js "password" ++ [34; 58; 34] ++ [92] ++ js "ud800" ++ [92; 34; 92; 92; 92]
    ++ js "n"
    ++ [34; 44; 34] ++ js "url" ++ [34; 58; 34] ++ js "x" ++ [34; 44; 34]
    ++ js "notes" ++ [34; 58; 34; 34] ++ js "}".
Proof. vm_compute. reflexivity. Qed.

(** ** [Notes]: a saved note read back *)

Section NotesFacts.
Context `{WC : WebCrypto}.

Lemma encryptData_iv_nonempty (P : jsstring) (K : CryptoKey) (rnd : nat -> byte)
    (c : EncryptedData) :
  encryptData P K rnd = Normal c -> iv c <> [].
Proof.
  unfold encryptData. intros Hc.
  destruct (aes_gcm_encrypt K (generateIV rnd) (TextEncoder_encode P)) as [sealed|];
    [|discriminate].
  simpl in Hc. rewrite !arrayBufferToBase64_value in Hc. simpl in Hc.
  injection Hc as <-. discriminate.
Qed.

(** X20.  A note saved by [handleSave] and read back by the loader.  The
    stored [bodyPlain] is the body for a note that is not sensitive and the
    empty string for a sensitive one, so the body of a sensitive note is
    never stored in the clear.  The loader returns the note with the title
    and the tags of the form; the body shown is the body typed, for every
    string, when the note is not sensitive; for a sensitive note it is the
    body's scalar values without a leading U+FEFF (the body itself when it
    is well formed and does not begin with U+FEFF), and the empty string in
    the one case of an empty [ciphertext]. *)
Theorem note_saved_then_loaded
    (editingNote : option Notes.NoteDoc) (formData : Notes.NoteForm)
    (K : CryptoKey) (rnd : nat -> byte) (now id : jsstring) (d : Notes.NoteDoc) :
  Forall (fun u => is_code_unit u = true) (Notes.form_body formData) ->
  Notes.handleSave editingNote formData K rnd now = Some d ->
  Notes.doc_bodyPlain d
  = Some (if Notes.form_isSensitive formData then [] else Notes.form_body formData) /\
  exists n,
    Notes.load_note K id d = Normal n /\
    Notes.note_title n = Notes.form_title formData /\
    Notes.note_title n <> [] /\
    Notes.note_tags n = parse_tags (Notes.form_tags formData) /\
    Notes.note_isSensitive n = Notes.form_isSensitive formData /\
    Notes.note_body n
    = if Notes.form_isSensitive formData
      then if Notes.truthy (Notes.doc_bodyCiphertext d)
           then of_scalars (strip_bom (to_scalars (Notes.form_body formData)))
           else []
      else Notes.form_body formData.
Proof.
  intros Hbody. unfold Notes.handleSave.
  destruct (Notes.form_title formData) as [|t0 title] eqn:Et; [discriminate|].
  unfold Notes.docData. rewrite Et.
  destruct (Notes.form_isSensitive formData) eqn:Es.
  - destruct (encryptData (Notes.form_body formData) K rnd) as [c|e] eqn:Ec;
      [|discriminate].
    simpl. intros [= <-]. split; [reflexivity|].
    pose proof (encryptData_iv_nonempty _ _ _ _ Ec) as Hiv.
    pose proof (decryptData_encryptData_value _ K rnd c Hbody Ec) as Hdec.
    unfold Notes.load_note. cbn [Notes.doc_isSensitive Notes.doc_bodyCiphertext Notes.doc_iv
      Notes.doc_bodyPlain Notes.doc_title Notes.doc_isPinned Notes.doc_tags
      Notes.doc_createdAt Notes.doc_updatedAt Notes.or_empty default andb
      fst snd].
    destruct (ciphertext c) as [|c0 ct] eqn:Ect.
    + simpl. eexists. split; [reflexivity|]. simpl. repeat split. discriminate.
    + destruct (iv c) as [|i0 i] eqn:Eiv; [contradiction|].
      cbn [Notes.truthy andb]. unfold Datatypes.id. rewrite Hdec. simpl.
      eexists. split; [reflexivity|]. simpl. repeat split. discriminate.
  - simpl. intros [= <-]. split; [reflexivity|].
    unfold Notes.load_note. simpl.
    eexists. split; [reflexivity|]. simpl. repeat split. discriminate.
Qed.

End NotesFacts.

Lemma note_saved_then_loaded_witness :
  let form := Notes.mk_NoteForm (js "bank") [0xFEFF; 112; 105; 110] true (js "money, pin") in
  exists d,
    Forall (fun u => is_code_unit u = true) (Notes.form_body form) /\
    @Notes.handleSave demo_crypto None form demo_key demo_rnd (js "2024-01-01") = Some d /\
    Notes.doc_bodyPlain d = Some [] /\
    exists n,
      @Notes.load_note demo_crypto demo_key (js "n1") d = Normal n /\
      Notes.note_title n = js "bank" /\
      Notes.note_title n <> [] /\
      Notes.note_tags n = parse_tags (js "money, pin") /\
      Notes.note_isSensitive n = true /\
      Notes.note_body n
      = if Notes.truthy (Notes.doc_bodyCiphertext d)
        then of_scalars (strip_bom (to_scalars [0xFEFF; 112; 105; 110]))
        else [].
Proof.
  cbn zeta.
  destruct (@Notes.handleSave demo_crypto None
              (Notes.mk_NoteForm (js "bank") [0xFEFF; 112; 105; 110] true (js "money, pin"))
              demo_key demo_rnd (js "2024-01-01")) as [d|] eqn:E;
    [|vm_compute in E; discriminate].
  exists d.
  assert (H : Forall (fun u => is_code_unit u = true) [0xFEFF; 112; 105; 110])
    by (repeat (apply Forall_cons_2; [reflexivity|]); apply Forall_nil_2).
  split; [exact H|]. split; [reflexivity|].
  exact (@note_saved_then_loaded demo_crypto None
           (Notes.mk_NoteForm (js "bank") [0xFEFF; 112; 105; 110] true (js "money, pin"))
           demo_key demo_rnd (js "2024-01-01") (js "n1") d H E).
Defined.

(** The run: a sensitive note whose body begins with U+FEFF comes back
    without it; the same body in a note that is not sensitive comes back
    whole. *)
Lemma note_run :
  let sensitive := Notes.mk_NoteForm (js "bank") [0xFEFF; 112; 105; 110] true [] in
  let plain := Notes.mk_NoteForm (js "bank") [0xFEFF; 112; 105; 110] false [] in
  let shown form :=
    match @Notes.handleSave demo_crypto None form demo_key demo_rnd (js "2024-01-01") with
    | Some d =>
        match @Notes.load_note demo_crypto demo_key (js "n1") d with
        | Normal n => Some (Notes.note_body n)
        | Throw _ => None
        end
    | None => None
    end in
  shown sensitive = Some (js "pin") /\ shown plain = Some [0xFEFF; 112; 105; 110].
Proof. vm_compute. split; reflexivity. Qed.

(** ** [PasswordGenerator]: a control changes the setting, the password
    follows the previous one *)

Lemma regenerate_value (render st : GeneratorState) (rnd : nat -> Z) :
  0 <= gen_length render <= 16384 ->
  exists p,
    regenerate render rnd st = (Normal tt, setCopied false (setPassword p st)) /\
    Z.of_nat (List.length p) = gen_length render /\
    Forall (allowed_char (render_options render)) p.
Proof.
  intros Hn. unfold regenerate, generatePassword, getRandomValues_Uint32.
  assert (H1 : (gen_length render <? 0) || (2 ^ 53 <=? gen_length render) = false) by lia.
  assert (H2 : (65536 <? 4 * gen_length render) = false) by lia.
  rewrite H1, H2. simpl.
  destruct (password_loop (build_charset (render_options render))
              (List.map (fun i => rnd i mod 2 ^ 32) (List.seq 0 (Z.to_nat (gen_length render))))
              [] (build_charset_nonempty _)) as (chars & Hf & Hl & Hall).
  exists chars. split; [rewrite Hf; reflexivity|]. split.
  - rewrite Hl, List.length_map, List.length_seq. lia.
  - eapply Forall_impl; [exact Hall|]. intros c Hc. apply build_charset_allowed, Hc.
Qed.

(** X21.  In [PasswordGenerator] a control's handler stores the new setting
    and calls the [regenerate] of the render it belongs to, which still holds
    the previous values.  So, from a state [st] on screen: after the slider
    is moved to [value] the length shown is [value] and the password has the
    previous length [gen_length st]; after the upper-case switch is set to
    [checked] the flag is [checked] and the password is drawn from the
    classes that were enabled before.  A press on the regenerate button,
    whose [regenerate] is the one of the render on screen, gives a password
    for the settings shown. *)
Theorem control_regenerates_with_previous_settings
    (st : GeneratorState) (value : Z) (checked : bool) (rnd : nat -> Z) :
  0 <= gen_length st <= 16384 ->
  (exists st',
     onValueChange st value rnd st = (Normal tt, st') /\
     gen_length st' = value /\
     Z.of_nat (List.length (gen_password st')) = gen_length st /\
     Forall (allowed_char (render_options st)) (gen_password st')) /\
  (exists st',
     onCheckedChange setUppercase st checked rnd st = (Normal tt, st') /\
     gen_uppercase st' = checked /\
     Z.of_nat (List.length (gen_password st')) = gen_length st /\
     Forall (allowed_char (render_options st)) (gen_password st')) /\
  (exists st',
     regenerate st rnd st = (Normal tt, st') /\
     gen_length st' = gen_length st /\ render_options st' = render_options st /\
     Z.of_nat (List.length (gen_password st')) = gen_length st' /\
     Forall (allowed_char (render_options st')) (gen_password st')).
Proof.
  intros Hn. split; [|split].
  - destruct (regenerate_value st (setLength value st) rnd Hn) as (p & E & Hl & Ha).
    eexists. split; [exact E|]. simpl. auto.
  - destruct (regenerate_value st (setUppercase checked st) rnd Hn) as (p & E & Hl & Ha).
    eexists. split; [exact E|]. simpl. auto.
  - destruct (regenerate_value st st rnd Hn) as (p & E & Hl & Ha).
    eexists. split; [exact E|]. simpl. auto.
Qed.

Lemma control_regenerates_with_previous_settings_witness :
  let st := mk_GeneratorState 16 true true true true (js "0123456789abcdef") false in
  let rnd := fun i : nat => Z.of_nat i * 2654435761 + 12345 in
  0 <= gen_length st <= 16384 /\
  (exists st',
     onValueChange st 32 rnd st = (Normal tt, st') /\
     gen_length st' = 32 /\
     Z.of_nat (List.length (gen_password st')) = gen_length st /\
     Forall (allowed_char (render_options st)) (gen_password st')) /\
  (exists st',
     onCheckedChange setUppercase st false rnd st = (Normal tt, st') /\
     gen_uppercase st' = false /\
     Z.of_nat (List.length (gen_password st')) = gen_length st /\
     Forall (allowed_char (render_options st)) (gen_password st')) /\
  (exists st',
     regenerate st rnd st = (Normal tt, st') /\
     gen_length st' = gen_length st /\ render_options st' = render_options st /\
     Z.of_nat (List.length (gen_password st')) = gen_length st' /\
     Forall (allowed_char (render_options st')) (gen_password st')).
Proof.
  cbn zeta.
  assert (H : 0 <= gen_length
                     (mk_GeneratorState 16 true true true true (js "0123456789abcdef") false)
                <= 16384) by (simpl; lia).
  split; [exact H|].
  exact (control_regenerates_with_previous_settings
           (mk_GeneratorState 16 true true true true (js "0123456789abcdef") false)
           32 false (fun i : nat => Z.of_nat i * 2654435761 + 12345) H).
Defined.

(** The run: from the first render, the slider moved from 16 to 8 leaves a
    password of 16 characters beside the length 8; the upper-case switch
    turned off leaves a password with upper-case letters. *)
Lemma generator_run :
  let st := mk_GeneratorState 16 true true true true (js "0123456789abcdef") false in
  let rnd := fun i : nat => Z.of_nat i * 2654435761 + 12345 in
  (onValueChange st 8 rnd st).2
  = mk_GeneratorState 8 true true true true (js "ZCT.NeHYBSjMduXo") false /\
  (onCheckedChange setUppercase st false rnd st).2
  = mk_GeneratorState 16 false true true true (js "ZCT.NeHYBSjMduXo") false.
Proof. vm_compute. split; reflexivity. Qed.
